(** * image2svg: raster to line-art strokes and laser G-code

    A shallow embedding of [image2svg.py] and the properties of its stroke
    extraction: the two draw predicates, the run detector of
    [generateVectors], the serpentine flag, and the emitter [svgPrint].

    Conventions of the embedding.
    - Python integers (pixel indices, row numbers, numpy [uint8] samples) are
      [Z]; [//] is [Z.div] and [%] is [Z.modulo] (both floor towards minus
      infinity for a positive divisor, as in Python).
    - Python floats are the kernel's binary64 floats ([PrimFloat]), so
      [PIXEL_SIZE], the products [float(n) * PIXEL_SIZE] and the comparisons
      [<] and [!=] are computed exactly as the interpreter computes them.
    - The two output files are the lists of the records written to them, in
      the order written; a record keeps the numbers that the format string
      prints.
    - The module-level variables [svgFile], [gcodeFile], [last_a] .. [last_d]
      are the fields of [Globals], threaded through every call.
    - An exception is a value of [Outcome] that carries the globals as they
      were when it was raised. *)

From Stdlib Require Import String ZArith List Bool Lia Floats Uint63 QArith Qround Sorted.
Import ListNotations.

#[local] Set Warnings "-inexact-float".
#[local] Open Scope Z_scope.

(** ** Module-level constants *)

Definition shade1 : Z := 0.
Definition shade2 : Z := 50.
Definition shade3 : Z := 100.
Definition shade4 : Z := 158.
Definition shade5 : Z := 212.
Definition shade6 : Z := 240.

Definition POWER_MIN : Z := 0.
Definition POWER_MAX : Z := 15.
Definition FEED_SPEED : Z := 300.
Definition FEED_SPEED_MAX : Z := 800.

(** [float(n)] for a Python integer [n]; exact below 2^53, which bounds every
    pixel index, shade and speed of the program by far. *)
Definition py_float (n : Z) : float :=
  if n <? 0 then PrimFloat.opp (PrimFloat.of_uint63 (Uint63.of_Z (- n)))
  else PrimFloat.of_uint63 (Uint63.of_Z n).

(** [PIXEL_SIZE = 1 / (200.0 / 25.4)]: millimetres per pixel at 200 dpi. *)
Definition PIXEL_SIZE : float := (1 / (200.0 / 25.4))%float.

Definition POWER_STEP : float := (py_float (POWER_MAX - POWER_MIN) / 6.0)%float.
Definition SPEED_STEP : float := (py_float (FEED_SPEED_MAX - FEED_SPEED) / 6.0)%float.

(** ** The shade reduction of [main]

    [Image.eval(image, lambda px: ...)]: every sample is darkened to the
    nearest of six levels. *)
Definition reduce_shade (px : Z) : Z :=
  if px <? shade2 then shade1
  else if px <? shade3 then shade2
  else if px <? shade4 then shade3
  else if px <? shade5 then shade4
  else if px <? shade6 then shade5
  else 255.

(** ** The draw predicates *)

Definition needLineX (val rowIndex : Z) : bool :=
  if (rowIndex mod 2 =? 0) && (val <=? shade1) then true
  else if (rowIndex mod 4 =? 0) && (val <=? shade3) then true
  else if (rowIndex mod 8 =? 0) && (val <=? shade5) then true
  else false.

Definition needLineY (val rowIndex : Z) : bool :=
  if (rowIndex mod 2 =? 0) && (val <=? shade1) then false
  else if (rowIndex mod 4 =? 0) && (val <=? shade2) then true
  else if (rowIndex mod 4 =? 0) && (val <=? shade3) then false
  else if (rowIndex mod 8 =? 0) && (val <=? shade4) then true
  else false.

(** The periodicity class of a line index: how many of the periods 2, 4, 8
    divide it. *)
Definition period_class (rowIndex : Z) : Z :=
  if rowIndex mod 8 =? 0 then 3
  else if rowIndex mod 4 =? 0 then 2
  else if rowIndex mod 2 =? 0 then 1
  else 0.

(** ** Output records *)

(** One [<line ... />] element of the SVG file: the attribute names are
    [axes[0]+'1'], [axes[1]+'1'], [axes[0]+'2'], [axes[1]+'2'], the colour is
    [rgb(gray,gray,gray)]. *)
Record SvgLine : Type := mkLine {
  attr0 : string;
  attr1 : string;
  along1 : Z;
  across1 : Z;
  along2 : Z;
  across2 : Z;
  gray : Z
}.

(** One instruction of the G-code file, named after its format string. *)
Inductive GLine : Type :=
| MOVE_GCODE (x y : float)            (* "G0 X%.3f Y%.3f"          *)
| BURN_GCODE (val x y : float)        (* "S%.3f" then "G1 X%.3f Y%.3f" *)
| BURN_GCODE_F (x y val : float).     (* "G1 X%.3f Y%.3f F%d"      *)

Definition is_travel (l : GLine) : bool :=
  match l with MOVE_GCODE _ _ => true | _ => false end.

Definition is_mark (l : GLine) : bool :=
  match l with MOVE_GCODE _ _ => false | _ => true end.

(** The coordinates an instruction carries, X first. *)
Definition target (l : GLine) : float * float :=
  match l with
  | MOVE_GCODE x y => (x, y)
  | BURN_GCODE _ x y => (x, y)
  | BURN_GCODE_F x y _ => (x, y)
  end.

Record Globals : Type := mkGlobals {
  svgFile : list SvgLine;
  gcodeFile : list GLine;
  last_a : float;
  last_b : float;
  last_c : float;
  last_d : float
}.

(** The globals when the first stroke is emitted: nothing written by the
    emitter yet, [last_a = last_b = last_c = last_d = 0]. *)
Definition initial_globals : Globals :=
  mkGlobals [] [] 0%float 0%float 0%float 0%float.

Inductive PyError : Type :=
| UnboundLocalError
| IndexError.

Inductive Outcome (A : Type) : Type :=
| Return (a : A) (g : Globals)
| Raise (e : PyError) (g : Globals).

Arguments Return {A} a g.
Arguments Raise {A} e g.

Definition globals_of {A : Type} (o : Outcome A) : Globals :=
  match o with Return _ g => g | Raise _ g => g end.

(** ** Python sequences *)

Fixpoint enumerate_from {A : Type} (n : Z) (l : list A) : list (Z * A) :=
  match l with
  | [] => []
  | x :: t => (n, x) :: enumerate_from (n + 1) t
  end.

Definition enumerate {A : Type} (l : list A) : list (Z * A) := enumerate_from 0 l.

(** [row[i]] for [0 <= i]; [None] stands for the [IndexError] of an index past
    the end. The program never indexes with a negative number. *)
Definition getitem (row : list Z) (i : Z) : option Z :=
  if i <? 0 then None else nth_error row (Z.to_nat i).

(** [np.swapaxes(image, 0, 1)] of an array of shape (height, width): [width]
    rows, row [j] holding column [j] of the image. *)
Definition swapaxes (width : Z) (image : list (list Z)) : list (list Z) :=
  map (fun j => map (fun row => nth j row 0) image) (seq 0 (Z.to_nat width)).

(** ** The emitter *)

(** [x < 0.001] replaced by [0] before formatting, in [MOVE_TO] and [BURN_TO]. *)
Definition snap (x : float) : float :=
  if PrimFloat.ltb x 0.001 then 0%float else x.

Definition MOVE_TO (x y : float) : GLine :=
  let x := if PrimFloat.ltb x 0.001 then 0%float else x in
  let y := if PrimFloat.ltb y 0.001 then 0%float else y in
  MOVE_GCODE x y.

Definition float_ne (x y : float) : bool := negb (PrimFloat.eqb x y).

Section Emitter.

(** The global mode flag: 1 selects speed modulation, anything else power. *)
Variable S_OR_F : Z.

Definition BURN_TO (x y val : float) : GLine :=
  let x := if PrimFloat.ltb x 0.001 then 0%float else x in
  let y := if PrimFloat.ltb y 0.001 then 0%float else y in
  if S_OR_F =? 1 then BURN_GCODE_F x y val else BURN_GCODE val x y.

Definition svgPrint (start stop rowNum : Z) (invert : bool)
    (axes : string * string) (axisDimension : Z) (val : Z) (g : Globals) : Globals :=
  let val := if negb (val =? 0) then (val / (256 / 6)) * (256 / 6) else val in
  let line :=
    mkLine (fst axes) (snd axes)
      (if invert then axisDimension - start else start) rowNum
      (if invert then axisDimension - stop else stop) rowNum
      val in
  let sval :=
    if S_OR_F =? 1
    then (py_float (val / (256 / 6)) * SPEED_STEP + py_float FEED_SPEED)%float
    else (py_float ((255 - val) / (256 / 6)) * POWER_STEP)%float in
  let a := (py_float (if invert then axisDimension - start else start) * PIXEL_SIZE)%float in
  let c := (py_float (if invert then axisDimension - stop else stop) * PIXEL_SIZE)%float in
  let b := (py_float rowNum * PIXEL_SIZE)%float in
  let d := b in
  let gx :=
    if String.eqb (fst axes) "x"
    then (if float_ne a (last_c g) || float_ne b (last_d g) then [MOVE_TO a b] else [])
         ++ [BURN_TO c d sval]
    else [] in
  let gy :=
    if String.eqb (fst axes) "y"
    then (if float_ne a (last_c g) || float_ne b (last_d g) then [MOVE_TO b a] else [])
         ++ [BURN_TO d c sval]
    else [] in
  mkGlobals (svgFile g ++ [line]) (gcodeFile g ++ gx ++ gy) a b c d.

(** ** The run detector and the serpentine loop *)

(** The variables of [generateVectors] that the loop over one row updates.
    [index] is [None] while the name is unbound. *)
Record RowState : Type := mkRowState {
  rowDrawn : bool;
  firstEndpoint : Z;
  index : option Z;
  glob : Globals
}.

Section Pass.

Variable needLine : Z -> Z -> bool.
Variable axes : string * string.
Variable axisDimension : Z.

(** The body of [for index, pixel in enumerate(row)]. The guard [index > 0]
    keeps [row[index-1]] inside the row, so the read is written with a
    default that is never used. *)
Definition pixel_step (rowIndex : Z) (invert : bool) (row : list Z)
    (s : RowState) (ip : Z * Z) : RowState :=
  let '(idx, pixel) := ip in
  let prev := nth (Z.to_nat (idx - 1)) row 0 in
  if (idx >? 0) && negb (pixel =? prev) then
    if needLine prev rowIndex
    then mkRowState true idx (Some idx)
           (svgPrint (firstEndpoint s) idx rowIndex invert axes axisDimension prev (glob s))
    else mkRowState (rowDrawn s) idx (Some idx) (glob s)
  else mkRowState (rowDrawn s) (firstEndpoint s) (Some idx) (glob s).

(** One row once its samples are in scanning order: the loop over the
    samples, then the test of the last segment and the update of the flag.
    It returns the flag and the binding of [index] after the row. *)
Definition scan_samples (rowIndex : Z) (invert : bool) (row : list Z)
    (idx : option Z) (g : Globals) : Outcome (bool * option Z) :=
  let s := fold_left (pixel_step rowIndex invert row) (enumerate row)
             (mkRowState false 0 idx g) in
  match index s with
  | None => Raise UnboundLocalError (glob s)
  | Some i =>
      match getitem row i with
      | None => Raise IndexError (glob s)
      | Some last =>
          let s' :=
            if needLine last rowIndex
            then mkRowState true (firstEndpoint s) (index s)
                   (svgPrint (firstEndpoint s) i rowIndex invert axes axisDimension last (glob s))
            else s in
          Return (if rowDrawn s' then negb invert else invert, index s') (glob s')
      end
  end.

(** The body of [for rowIndex, row in enumerate(img)]: the row is flipped
    when the flag is set, then scanned. *)
Definition scan_row (rowIndex : Z) (row : list Z) (invert : bool)
    (idx : option Z) (g : Globals) : Outcome (bool * option Z) :=
  scan_samples rowIndex invert (if invert then rev row else row) idx g.

(** The loop [for rowIndex, row in enumerate(img)]. The function returns
    nothing in Python; here it hands back the last values of its locals
    [invert] and [index], which no caller reads. *)
Fixpoint rows_loop (rows : list (Z * list Z)) (invert : bool)
    (idx : option Z) (g : Globals) : Outcome (bool * option Z) :=
  match rows with
  | [] => Return (invert, idx) g
  | (rowIndex, row) :: rest =>
      match scan_row rowIndex row invert idx g with
      | Return (invert', idx') g' => rows_loop rest invert' idx' g'
      | Raise e g' => Raise e g'
      end
  end.

Definition generateVectors (img : list (list Z)) (g : Globals)
    : Outcome (bool * option Z) :=
  rows_loop (enumerate img) false None g.

End Pass.

(** The two passes of [main] over the reduced image: rows as horizontal
    strokes, then the columns of the same array as vertical strokes. The
    fixed text written around them (the SVG and G-code prologue and epilogue)
    is not part of the stroke streams. *)
Definition main_passes (width height : Z) (image : list (list Z)) (g : Globals)
    : Outcome (bool * option Z) :=
  let image := map (map reduce_shade) image in
  match generateVectors needLineX ("x"%string, "y"%string) width image g with
  | Return _ g1 =>
      generateVectors needLineY ("y"%string, "x"%string) height (swapaxes width image) g1
  | Raise e g1 => Raise e g1
  end.

End Emitter.

(** * Vocabulary of the properties *)

(** A pixel coordinate in millimetres, as [svgPrint] computes it. *)
Definition scaled (p : Z) : float := (py_float p * PIXEL_SIZE)%float.

(** The pixel coordinate reported for a run end: mirrored about the line's
    dimension when the flag is set. *)
Definition reported (invert : bool) (axisDimension p : Z) : Z :=
  if invert then axisDimension - p else p.

(** The grey level [svgPrint] prints for a shade. *)
Definition quantize (val : Z) : Z :=
  if negb (val =? 0) then (val / (256 / 6)) * (256 / 6) else val.

(** The start point of a stroke in millimetres, X first, read from its
    geometry record. *)
Definition physical_start (l : SvgLine) : float * float :=
  if String.eqb (attr0 l) "x"
  then (scaled (along1 l), scaled (across1 l))
  else (scaled (across1 l), scaled (along1 l)).

(** The quantisation as the specification words it: six equal-width buckets
    of the 0-255 range, hence of width 256/6; the bucket index is
    floor(value / (256/6)); the darkness is the index times the width. *)
Definition spec_bucket (v : Z) : Z := Qfloor (inject_Z v / (256 # 6)).

Definition spec_darkness (v : Z) : Q := (inject_Z (spec_bucket v) * (256 # 6))%Q.

Definition darkness_follows_spec : Prop :=
  forall S_OR_F start stop rowNum invert axes axisDimension val g line,
    needLineX val rowNum = true \/ needLineY val rowNum = true ->
    0 <= val <= 255 ->
    svgFile (svgPrint S_OR_F start stop rowNum invert axes axisDimension val g)
      = svgFile g ++ [line] ->
    (inject_Z (gray line) == spec_darkness val)%Q.

(** An array of shape (height, width), as [np.asarray] hands it to [main]. *)
Definition rectangular (width height : Z) (image : list (list Z)) : Prop :=
  0 <= width /\
  Z.of_nat (length image) = height /\
  Forall (fun row => Z.of_nat (length row) = width) image.

(** The (start, stop) pair of a stroke along its line. *)
Definition extent (l : SvgLine) : Z * Z := (along1 l, along2 l).

(** The runs on which the detector evaluates its predicate, as the (start,
    stop) pairs it would hand to [svgPrint]: the strokes of an unflagged scan
    of the row under a predicate that accepts everything. *)
Definition evaluated_runs (row : list Z) : list (Z * Z) :=
  map extent
    (svgFile (globals_of
       (scan_row 0 (fun _ _ => true) ("x"%string, "y"%string)
          (Z.of_nat (length row)) 0 row false None initial_globals))).

Definition run_lengths (runs : list (Z * Z)) : Z :=
  fold_right (fun r acc => (snd r - fst r) + acc) 0 runs.

(** A 4 x 3 image (rows of 3 samples): one horizontal stroke on row 0 ending
    at pixel (2, 0), then one vertical stroke on column 0 starting at pixel
    (0, 2). *)
Definition crossing_image : list (list Z) :=
  [[0; 0; 255]; [255; 255; 255]; [50; 255; 255]; [255; 255; 255]].

(** The row was drawn on exactly when the SVG file grew since [g0]. *)
Definition drawn_inv (g0 : Globals) (s : RowState) : Prop :=
  (rowDrawn s = false /\ glob s = g0) \/
  (rowDrawn s = true /\ (length (svgFile g0) < length (svgFile (glob s)))%nat).

(** The loop variables after the first [k] samples of the row. *)
Definition scan_prefix (S_OR_F : Z) (needLine : Z -> Z -> bool) (axes : string * string)
    (axisDimension rowIndex : Z) (invert : bool) (row : list Z)
    (k : nat) (s0 : RowState) : RowState :=
  fold_left (pixel_step S_OR_F needLine axes axisDimension rowIndex invert row)
    (enumerate (firstn k row)) s0.

(** The strokes recorded by the end of a scan. *)
Definition strokes {A : Type} (o : Outcome A) : list SvgLine := svgFile (globals_of o).

Definition same_strokes (l1 l2 : list SvgLine) : Prop :=
  forall l, In l l1 <-> In l l2.

(** The specification's other formulation of a flagged line: run detection on
    the samples as they stand, not reversed, with every reported coordinate
    mirrored about the line's dimension. *)
Definition mirrored_unreversed_scan (S_OR_F : Z) (needLine : Z -> Z -> bool)
    (axes : string * string) (axisDimension rowIndex : Z) (row : list Z)
    (idx : option Z) (g : Globals) : Outcome (bool * option Z) :=
  scan_samples S_OR_F needLine axes axisDimension rowIndex true row idx g.

(** Reversal of the samples alone, the coordinates reported as detected. *)
Definition reversed_unmirrored_scan (S_OR_F : Z) (needLine : Z -> Z -> bool)
    (axes : string * string) (axisDimension rowIndex : Z) (row : list Z)
    (idx : option Z) (g : Globals) : Outcome (bool * option Z) :=
  scan_samples S_OR_F needLine axes axisDimension rowIndex false (rev row) idx g.

Definition flag_equals_mirroring : Prop :=
  forall S_OR_F needLine axes rowIndex row idx g,
    same_strokes
      (strokes (scan_row S_OR_F needLine axes (Z.of_nat (length row)) rowIndex row
                  true idx g))
      (strokes (mirrored_unreversed_scan S_OR_F needLine axes (Z.of_nat (length row))
                  rowIndex row idx g)).

(** A run as the detector hands it to [svgPrint]: start, stop and shade. *)
Definition run_record (axes : string * string) (axisDimension rowIndex : Z)
    (invert : bool) (r : Z * Z * Z) : SvgLine :=
  let '(start, stop, val) := r in
  mkLine (fst axes) (snd axes)
    (reported invert axisDimension start) rowIndex
    (reported invert axisDimension stop) rowIndex
    (quantize val).

(** Runs that follow one another between [lo] and [hi] without overlap. *)
Fixpoint runs_between (lo hi : Z) (runs : list (Z * Z * Z)) : Prop :=
  match runs with
  | [] => lo <= hi
  | (start, stop, _) :: rest => lo <= start /\ start <= stop /\ runs_between stop hi rest
  end.

(** A run of a row whose shade is a sample of the row that the predicate
    accepts on that line. *)
Definition accepted_run (needLine : Z -> Z -> bool) (rowIndex : Z) (row : list Z)
    (r : Z * Z * Z) : Prop :=
  In (snd r) row /\ needLine (snd r) rowIndex = true.

(** A stroke recorded for row [rowIndex] of a pass: the record of a run
    inside the row, in either direction, of an accepted sample. *)
Definition stroke_of_row (needLine : Z -> Z -> bool) (axes : string * string)
    (axisDimension rowIndex : Z) (row : list Z) (l : SvgLine) : Prop :=
  exists invert start stop val,
    l = run_record axes axisDimension rowIndex invert (start, stop, val) /\
    0 <= start <= stop /\ stop <= Z.of_nat (length row) - 1 /\
    In val row /\ needLine val rowIndex = true.

(** The travel lines and the burn lines of the G-code file. *)
Definition count_travels (g : Globals) : nat := length (filter is_travel (gcodeFile g)).

Definition count_marks (g : Globals) : nat := length (filter is_mark (gcodeFile g)).

(** From [g] to [g'] as many burn lines were written as strokes were
    recorded, and no more travel lines than that. *)
Definition paired_output (g g' : Globals) : Prop :=
  exists n t : nat,
    length (svgFile g') = (length (svgFile g) + n)%nat /\
    count_marks g' = (count_marks g + n)%nat /\
    count_travels g' = (count_travels g + t)%nat /\
    (t <= n)%nat.

(** The modulation value a burn line carries: the S word or the F word. *)
Definition burn_value (l : GLine) : option float :=
  match l with
  | MOVE_GCODE _ _ => None
  | BURN_GCODE val _ _ => Some val
  | BURN_GCODE_F _ _ val => Some val
  end.

(** The line written last to the G-code file. *)
Definition last_gcode (g : Globals) : option GLine :=
  match rev (gcodeFile g) with
  | [] => None
  | l :: _ => Some l
  end.

(** Two strokes of one row in the order they are written: the second starts
    where the first ended or further along the scan, which runs towards
    smaller coordinates when the flag is set. *)
Definition follows (invert : bool) (l1 l2 : SvgLine) : Prop :=
  if invert then along1 l2 <= along2 l1 else along2 l1 <= along1 l2.

(** The six levels left by the shade reduction. *)
Definition is_level (v : Z) : Prop :=
  In v [shade1; shade2; shade3; shade4; shade5; 255].

(** [g'] holds everything [g] held, in the same order, and possibly more at
    the end of each file. *)
Definition extends (g g' : Globals) : Prop :=
  exists (lines : list SvgLine) (code : list GLine),
    svgFile g' = svgFile g ++ lines /\ gcodeFile g' = gcodeFile g ++ code.

(** Strokes in the order of their line numbers. *)
Definition by_line (l1 l2 : SvgLine) : Prop := across1 l1 <= across1 l2.

(** The remembered coordinates are those of the stroke recorded last. *)
Definition cursor_on_last_stroke (g : Globals) : Prop :=
  exists earlier l,
    svgFile g = earlier ++ [l] /\
    last_a g = scaled (along1 l) /\ last_b g = scaled (across1 l) /\
    last_c g = scaled (along2 l) /\ last_d g = scaled (across2 l).

(** C7 as the specification states it, for one pass: a grid with zero width
    or zero height is gone through without an exception, and nothing is
    written. *)
Definition zero_dimension_short_circuits : Prop :=
  forall S_OR_F needLine axes width height img g,
    rectangular width height img ->
    width = 0 \/ height = 0 ->
    exists r, generateVectors S_OR_F needLine axes width img g = Return r g.

(** * Properties *)

(** ** The draw predicates *)

(** Boolean tests of the predicates turned into arithmetic facts. *)
Ltac bool_to_arith :=
  repeat match goal with
  | |- context [?a =? ?b] => destruct (Z.eqb_spec a b)
  | |- context [?a <=? ?b] => destruct (Z.leb_spec a b)
  | |- context [?a <? ?b] => destruct (Z.ltb_spec a b)
  end; cbn [andb orb negb].

(** Linear arithmetic with the remainders by 2, 4 and 8 related. *)
Ltac mod_lia := Z.div_mod_to_equations; lia.

Lemma needLineX_spec (val rowIndex : Z) :
  needLineX val rowIndex = true <->
  (rowIndex mod 2 = 0 /\ val <= shade1) \/
  (rowIndex mod 4 = 0 /\ val <= shade3) \/
  (rowIndex mod 8 = 0 /\ val <= shade5).
Proof.
  unfold needLineX, shade1, shade3, shade5.
  bool_to_arith; split; intros ?; try reflexivity; try discriminate; mod_lia.
Qed.

Lemma needLineY_spec (val rowIndex : Z) :
  needLineY val rowIndex = true <->
  (rowIndex mod 4 = 0 /\ shade1 < val <= shade2) \/
  (rowIndex mod 8 = 0 /\ shade3 < val <= shade4).
Proof.
  unfold needLineY, shade1, shade2, shade3, shade4.
  bool_to_arith; split; intros ?; try reflexivity; try discriminate; mod_lia.
Qed.

Lemma period_class_spec (i j : Z) :
  period_class i <= period_class j <->
  (i mod 2 = 0 -> j mod 2 = 0) /\
  (i mod 4 = 0 -> j mod 4 = 0) /\
  (i mod 8 = 0 -> j mod 8 = 0).
Proof.
  unfold period_class. bool_to_arith; mod_lia.
Qed.

(** C5. The horizontal predicate accepts exactly: an even line and a shade of
    at most [shade1]; or a line divisible by 4 and a shade of at most
    [shade3]; or a line divisible by 8 and a shade of at most [shade5]. It is
    monotone: a darker (smaller) shade on the same line, or the same shade on
    a line of a periodicity class at least as deep, stays accepted. *)
Theorem needLineX_nested_bands :
  (forall val rowIndex,
      needLineX val rowIndex = true <->
      (rowIndex mod 2 = 0 /\ val <= shade1) \/
      (rowIndex mod 4 = 0 /\ val <= shade3) \/
      (rowIndex mod 8 = 0 /\ val <= shade5)) /\
  (forall val val' rowIndex,
      val' <= val -> needLineX val rowIndex = true -> needLineX val' rowIndex = true) /\
  (forall val rowIndex rowIndex',
      period_class rowIndex <= period_class rowIndex' ->
      needLineX val rowIndex = true -> needLineX val rowIndex' = true).
Proof.
  split; [exact needLineX_spec|split].
  - intros val val' rowIndex Hle H. apply needLineX_spec in H. apply needLineX_spec. lia.
  - intros val rowIndex rowIndex' Hc H.
    apply period_class_spec in Hc. apply needLineX_spec in H. apply needLineX_spec. lia.
Qed.

Lemma needLineX_nested_bands_witness :
  needLineX 100 4 = true /\ needLineX 50 4 = true /\ needLineX 100 8 = true.
Proof.
  split; [reflexivity|split].
  - apply (proj1 (proj2 needLineX_nested_bands) 100 50 4); [lia|reflexivity].
  - apply (proj2 (proj2 needLineX_nested_bands) 100 4 8); [vm_compute; discriminate|reflexivity].
Defined.

(** C10. The vertical predicate accepts exactly: a line divisible by 4 and a
    shade in ([shade1], [shade2]]; or a line divisible by 8 and a shade in
    ([shade3], [shade4]]. So it rejects every line not divisible by 4, and
    the darkest band on every line. *)
Theorem needLineY_cross_bands :
  (forall val rowIndex,
      needLineY val rowIndex = true <->
      (rowIndex mod 4 = 0 /\ shade1 < val <= shade2) \/
      (rowIndex mod 8 = 0 /\ shade3 < val <= shade4)) /\
  (forall val rowIndex, rowIndex mod 4 <> 0 -> needLineY val rowIndex = false) /\
  (forall val rowIndex, val <= shade1 -> needLineY val rowIndex = false).
Proof.
  split; [exact needLineY_spec|split].
  - intros val rowIndex Hn. destruct (needLineY val rowIndex) eqn:E; [|reflexivity].
    apply needLineY_spec in E. mod_lia.
  - intros val rowIndex Hv. destruct (needLineY val rowIndex) eqn:E; [|reflexivity].
    apply needLineY_spec in E. unfold shade1, shade3 in *. lia.
Qed.

Lemma needLineY_cross_bands_witness :
  needLineY 50 6 = false /\ needLineY 0 8 = false.
Proof.
  split.
  - apply (proj1 (proj2 needLineY_cross_bands) 50 6). vm_compute. discriminate.
  - apply (proj2 (proj2 needLineY_cross_bands) 0 8). vm_compute. discriminate.
Defined.

(** C4, as stated, fails: shade 50 on line 0 is accepted by both predicates. *)
Lemma needLineY_not_disjoint_from_needLineX :
  ~ (forall val rowIndex, needLineX val rowIndex = true -> needLineY val rowIndex = false).
Proof.
  intros H. specialize (H 50 0 eq_refl). discriminate H.
Qed.

(** C4, amended. Where the horizontal predicate accepts, the vertical one
    rejects except on the two cross-hatched bands: a shade in
    ([shade1], [shade2]] on a line divisible by 4, and a shade in
    ([shade3], [shade4]] on a line divisible by 8, which both accept. *)
Theorem needLineY_suppressed_outside_cross_bands (val rowIndex : Z) :
  let crossed :=
    (rowIndex mod 4 = 0 /\ shade1 < val <= shade2) \/
    (rowIndex mod 8 = 0 /\ shade3 < val <= shade4) in
  (needLineX val rowIndex = true -> ~ crossed -> needLineY val rowIndex = false) /\
  (crossed -> needLineX val rowIndex = true /\ needLineY val rowIndex = true).
Proof.
  cbv zeta. split.
  - intros _ Hn. destruct (needLineY val rowIndex) eqn:E; [|reflexivity].
    apply needLineY_spec in E. contradiction.
  - intros Hc. split; [apply needLineX_spec|apply needLineY_spec; exact Hc].
    unfold shade1, shade2, shade3, shade4, shade5 in *. lia.
Qed.

Lemma needLineY_suppressed_outside_cross_bands_witness :
  needLineY 100 4 = false /\ needLineX 158 8 = true /\ needLineY 158 8 = true.
Proof.
  split.
  - apply (proj1 (needLineY_suppressed_outside_cross_bands 100 4)); [reflexivity|].
    unfold shade1, shade2, shade3, shade4. intros [[_ H]|[H _]]; [lia|discriminate H].
  - apply (proj2 (needLineY_suppressed_outside_cross_bands 158 8)).
    right. unfold shade3, shade4. split; [reflexivity|lia].
Defined.

(** Every pair the vertical predicate accepts is also accepted by the
    horizontal one: the vertical pass only crosses lines already hatched. *)
Lemma needLineY_implies_needLineX (val rowIndex : Z) :
  needLineY val rowIndex = true -> needLineX val rowIndex = true.
Proof.
  intros H. apply needLineY_spec in H. apply needLineX_spec.
  unfold shade1, shade2, shade3, shade4, shade5 in *. lia.
Qed.

(** ** The emitter, one call at a time *)

Lemma MOVE_TO_snap (x y : float) : MOVE_TO x y = MOVE_GCODE (snap x) (snap y).
Proof. reflexivity. Qed.

Lemma BURN_TO_target (S_OR_F : Z) (x y val : float) :
  target (BURN_TO S_OR_F x y val) = (snap x, snap y) /\
  is_mark (BURN_TO S_OR_F x y val) = true.
Proof. unfold BURN_TO. destruct (S_OR_F =? 1); split; reflexivity. Qed.

Section EmitterFacts.

Variable S_OR_F : Z.
Variables start stop rowNum : Z.
Variable invert : bool.
Variable axes : string * string.
Variable axisDimension val : Z.
Variable g : Globals.

#[local] Abbreviation g' :=
  (svgPrint S_OR_F start stop rowNum invert axes axisDimension val g).

(** One call appends exactly one geometry record. *)
Lemma svgPrint_svgFile :
  svgFile g' =
  svgFile g ++ [mkLine (fst axes) (snd axes)
                  (reported invert axisDimension start) rowNum
                  (reported invert axisDimension stop) rowNum
                  (quantize val)].
Proof. reflexivity. Qed.

Lemma svgPrint_svgFile_length : length (svgFile g') = S (length (svgFile g)).
Proof. rewrite svgPrint_svgFile, length_app. cbn. lia. Qed.

(** The end of the stroke is what the next call compares its start with. *)
Lemma svgPrint_cursor :
  last_c g' = scaled (reported invert axisDimension stop) /\
  last_d g' = scaled rowNum.
Proof. split; reflexivity. Qed.

(** What one call appends to the G-code file when [axes[0]] is ['x'] or
    ['y']: a travel line unless the start equals the remembered end, then one
    burn line. *)
Lemma svgPrint_gcodeFile :
  fst axes = "x"%string \/ fst axes = "y"%string ->
  let a := scaled (reported invert axisDimension start) in
  let b := scaled rowNum in
  exists travel burn,
    gcodeFile g' = gcodeFile g ++ travel ++ [burn] /\
    is_mark burn = true /\
    (float_ne a (last_c g) || float_ne b (last_d g) = false -> travel = []) /\
    (float_ne a (last_c g) || float_ne b (last_d g) = true ->
     exists t, travel = [t] /\ is_travel t = true).
Proof.
  intros Hax a b. unfold svgPrint. cbn [gcodeFile].
  fold (reported invert axisDimension start) (reported invert axisDimension stop).
  fold (scaled (reported invert axisDimension start)) (scaled rowNum)
       (scaled (reported invert axisDimension stop)).
  fold a b.
  destruct Hax as [E|E]; rewrite E; cbn [String.eqb Ascii.eqb Bool.eqb];
    destruct (float_ne a (last_c g) || float_ne b (last_d g)) eqn:Hne;
    cbn [app]; rewrite ?app_nil_r.
  - eexists [_], _. split; [reflexivity|]. split; [apply BURN_TO_target|].
    split; [discriminate|]. intros _. eexists. split; reflexivity.
  - eexists [], _. split; [reflexivity|]. split; [apply BURN_TO_target|].
    split; [reflexivity|discriminate].
  - eexists [_], _. split; [reflexivity|]. split; [apply BURN_TO_target|].
    split; [discriminate|]. intros _. eexists. split; reflexivity.
  - eexists [], _. split; [reflexivity|]. split; [apply BURN_TO_target|].
    split; [reflexivity|discriminate].
Qed.

End EmitterFacts.

(** Quantising a grey level again changes nothing. *)
Lemma quantize_idempotent (val : Z) : quantize (quantize val) = quantize val.
Proof.
  unfold quantize. change (256 / 6) with 42.
  destruct (Z.eqb_spec val 0) as [->|Hn]; cbn [negb]; [reflexivity|].
  destruct (Z.eqb_spec (val / 42 * 42) 0) as [E|E]; cbn [negb]; [reflexivity|].
  rewrite Z.div_mul by lia. reflexivity.
Qed.

(** ** Quantised darkness of a stroke *)

(** C8, as stated, fails: shade 212 on line 0 is accepted, falls in bucket
    floor(212 / (256/6)) = 4 of the specification, but is recorded with
    darkness 210 = 5 * 42, neither 4 * (256/6) nor 4 * 42. *)
Lemma darkness_212_not_spec_bucket :
  needLineX 212 0 = true /\
  spec_bucket 212 = 4 /\
  quantize 212 = 210 /\
  quantize 212 <> spec_bucket 212 * (256 / 6) /\
  ~ darkness_follows_spec.
Proof.
  split; [reflexivity|]. split; [reflexivity|]. split; [reflexivity|].
  split; [vm_compute; discriminate|].
  intros H.
  specialize (H 0 0 1 0 false ("x"%string, "y"%string) 1 212 initial_globals
                (mkLine "x" "y" 0 0 1 0 210) (or_introl eq_refl)).
  assert (Hr : 0 <= 212 <= 255) by lia.
  specialize (H Hr eq_refl). vm_compute in H. discriminate H.
Qed.

(** C8, amended. The darkness recorded for an accepted run of shade [val] in
    0..255 is [val // 42 * 42], where 42 = [256 // 6] is the integer bucket
    width; the bucket index [val // 42] of an accepted run is one of 0..5. *)
Theorem svgPrint_darkness_integer_buckets
    (S_OR_F start stop rowNum : Z) (invert : bool) (axes : string * string)
    (axisDimension val : Z) (g : Globals) :
  needLineX val rowNum = true \/ needLineY val rowNum = true ->
  0 <= val <= 255 ->
  exists line,
    svgFile (svgPrint S_OR_F start stop rowNum invert axes axisDimension val g)
      = svgFile g ++ [line] /\
    256 / 6 = 42 /\
    gray line = (val / 42) * 42 /\
    0 <= val / 42 <= 5.
Proof.
  intros Hacc Hr. eexists. split; [apply svgPrint_svgFile|].
  split; [reflexivity|]. cbn [gray].
  assert (Hv : val <= shade5).
  { destruct Hacc as [H|H]; [|apply needLineY_implies_needLineX in H];
      apply needLineX_spec in H; unfold shade1, shade3, shade5 in *; lia. }
  unfold shade5 in Hv. unfold quantize. change (256 / 6) with 42.
  split.
  - destruct (Z.eqb_spec val 0) as [->|Hn]; reflexivity.
  - split; [apply Z.div_pos; lia|].
    apply Z.lt_succ_r. apply Z.div_lt_upper_bound; lia.
Qed.

Lemma svgPrint_darkness_integer_buckets_witness :
  exists line,
    svgFile (svgPrint 0 0 3 0 false ("x"%string, "y"%string) 8 158 initial_globals)
      = svgFile initial_globals ++ [line] /\
    256 / 6 = 42 /\
    gray line = (158 / 42) * 42 /\
    0 <= 158 / 42 <= 5.
Proof.
  apply (svgPrint_darkness_integer_buckets 0 0 3 0 false ("x"%string, "y"%string) 8 158
           initial_globals).
  - left. reflexivity.
  - lia.
Defined.

(** ** Physical coordinates *)


(** ** Empty scanlines *)

(** The final test of a row reads [row[index]]; over an empty first row the
    loop never bound [index]. *)
Lemma generateVectors_empty_first_row (S_OR_F : Z) (needLine : Z -> Z -> bool)
    (axes : string * string) (axisDimension : Z) (rest : list (list Z)) (g : Globals) :
  generateVectors S_OR_F needLine axes axisDimension ([] :: rest) g
    = Raise UnboundLocalError g.
Proof.
  unfold generateVectors, enumerate. cbn [enumerate_from rows_loop].
  unfold scan_row, scan_samples. cbn [rev]. reflexivity.
Qed.

(** C7, as stated, fails for a pass called on a grid of one row and no
    column: [generateVectors] has no guard for an empty scanline, and the
    read of [row[index]] after the loop raises UnboundLocalError instead of
    the pass returning. Nothing has been written at that point. *)
Lemma empty_scanline_not_short_circuited :
  rectangular 0 1 [[]] /\
  generateVectors 0 needLineX ("x"%string, "y"%string) 0 [[]] initial_globals
    = Raise UnboundLocalError initial_globals /\
  ~ zero_dimension_short_circuits.
Proof.
  split; [split; [lia|split; [reflexivity|repeat constructor]]|].
  split; [reflexivity|].
  intros H.
  destruct (H 0 needLineX ("x"%string, "y"%string) 0 1 [[]] initial_globals) as [r Hr].
  - split; [lia|]. split; [reflexivity|repeat constructor].
  - left. reflexivity.
  - rewrite generateVectors_empty_first_row in Hr. discriminate Hr.
Qed.

(** C7, amended. A pass of [generateVectors] over a grid with zero width or
    zero height records no stroke and writes no G-code line: the globals are
    left as they were. With zero height there is no scanline and the pass
    returns, its flag false and [index] unbound, without reading any sample.
    With zero width and at least one scanline there is no short-circuit: the
    pass stops at the first scanline with UnboundLocalError. *)
Theorem zero_dimension_pass_emits_nothing
    (S_OR_F : Z) (needLine : Z -> Z -> bool) (axes : string * string)
    (width height : Z) (img : list (list Z)) (g : Globals) :
  rectangular width height img ->
  width = 0 \/ height = 0 ->
  globals_of (generateVectors S_OR_F needLine axes width img g) = g /\
  (height = 0 ->
   generateVectors S_OR_F needLine axes width img g = Return (false, None) g) /\
  (height <> 0 ->
   generateVectors S_OR_F needLine axes width img g = Raise UnboundLocalError g).
Proof.
  intros (Hw & Hh & Hrows) Hz.
  destruct img as [|row img].
  - cbn [length Z.of_nat] in Hh.
    change (generateVectors S_OR_F needLine axes width [] g)
      with (Return (false, @None Z) g).
    cbn [globals_of]. split; [reflexivity|]. split; [reflexivity|]. intros Hn. lia.
  - assert (Hpos : height <> 0) by (cbn [length] in Hh; lia).
    assert (Hw0 : width = 0) by tauto.
    apply Forall_inv in Hrows. destruct row as [|x row]; [|cbn [length] in Hrows; lia].
    rewrite generateVectors_empty_first_row. cbn [globals_of].
    split; [reflexivity|]. split; [intros Hn; contradiction|reflexivity].
Qed.

Lemma zero_dimension_pass_emits_nothing_witness :
  globals_of (generateVectors 0 needLineX ("x"%string, "y"%string) 0 [[]; []]
                initial_globals) = initial_globals /\
  (2 = 0 ->
   generateVectors 0 needLineX ("x"%string, "y"%string) 0 [[]; []] initial_globals
     = Return (false, None) initial_globals) /\
  (2 <> 0 ->
   generateVectors 0 needLineX ("x"%string, "y"%string) 0 [[]; []] initial_globals
     = Raise UnboundLocalError initial_globals).
Proof.
  apply (zero_dimension_pass_emits_nothing 0 needLineX ("x"%string, "y"%string) 0 2
           [[]; []] initial_globals).
  - split; [lia|]. split; [reflexivity|repeat constructor].
  - left. reflexivity.
Defined.

(** ** The cursor across the two passes *)

(** C1 on [crossing_image]. Two strokes are recorded and two burn lines are
    written, with no travel line at all. The first burn ends at
    X = 2 * PIXEL_SIZE, Y = 0; the second stroke starts at X = 0,
    Y = 2 * PIXEL_SIZE, a different point, yet nothing moves the head there:
    [svgPrint] compares (a, b), here (Y, X) of the start, with
    (last_c, last_d), left by the horizontal pass as (X, Y) of the end. *)
Theorem travel_omitted_between_passes :
  let out := globals_of (main_passes 0 3 4 crossing_image initial_globals) in
  exists l1 l2 m1 m2,
    svgFile out = [l1; l2] /\
    gcodeFile out = [m1; m2] /\
    is_mark m1 = true /\ is_mark m2 = true /\
    (attr0 l1, attr0 l2) = ("x"%string, "y"%string) /\
    target m1 = (scaled 2, 0%float) /\
    physical_start l2 = (0%float, scaled 2) /\
    float_ne (fst (physical_start l2)) (fst (target m1)) = true /\
    float_ne (snd (physical_start l2)) (snd (target m1)) = true.
Proof.
  cbv zeta. do 4 eexists.
  split; [vm_compute; reflexivity|].
  split; [vm_compute; reflexivity|].
  repeat split; vm_compute; reflexivity.
Qed.

(** ** The loop over the samples of one row *)

Lemma enumerate_from_app {A : Type} (l1 l2 : list A) (n : Z) :
  enumerate_from n (l1 ++ l2) =
  enumerate_from n l1 ++ enumerate_from (n + Z.of_nat (length l1)) l2.
Proof.
  revert n. induction l1 as [|x l1 IH]; intros n; cbn [app enumerate_from length].
  - f_equal. lia.
  - rewrite IH. cbn [app]. do 3 f_equal. lia.
Qed.

Lemma enumerate_snoc {A : Type} (l : list A) (x : A) :
  enumerate (l ++ [x]) = enumerate l ++ [(Z.of_nat (length l), x)].
Proof. unfold enumerate. rewrite enumerate_from_app. reflexivity. Qed.

Section ScanFacts.

Variable S_OR_F : Z.
Variable needLine : Z -> Z -> bool.
Variable axes : string * string.
Variable axisDimension rowIndex : Z.
Variable invert : bool.
Variable row : list Z.

#[local] Abbreviation step :=
  (pixel_step S_OR_F needLine axes axisDimension rowIndex invert row).

Lemma pixel_step_index (s : RowState) (ip : Z * Z) :
  index (step s ip) = Some (fst ip).
Proof.
  destruct ip as [i p]. unfold pixel_step.
  destruct ((i >? 0) && negb (p =? nth (Z.to_nat (i - 1)) row 0));
    [destruct (needLine _ rowIndex)|]; reflexivity.
Qed.

Lemma pixel_step_drawn_inv (g0 : Globals) (s : RowState) (ip : Z * Z) :
  drawn_inv g0 s -> drawn_inv g0 (step s ip).
Proof.
  intros H. destruct ip as [i p]. unfold pixel_step.
  destruct ((i >? 0) && negb (p =? nth (Z.to_nat (i - 1)) row 0));
    [destruct (needLine _ rowIndex)|]; try exact H.
  right. cbn [rowDrawn glob]. split; [reflexivity|].
  rewrite svgPrint_svgFile_length.
  destruct H as [[_ ->]|[_ H]]; lia.
Qed.

Lemma fold_drawn_inv (g0 : Globals) (l : list (Z * Z)) (s : RowState) :
  drawn_inv g0 s -> drawn_inv g0 (fold_left step l s).
Proof.
  revert s. induction l as [|ip l IH]; intros s H; cbn [fold_left];
    [exact H|apply IH, pixel_step_drawn_inv, H].
Qed.

Lemma pixel_step_keeps_records (s : RowState) (ip : Z * Z) (line : SvgLine) :
  In line (svgFile (glob s)) -> In line (svgFile (glob (step s ip))).
Proof.
  intros H. destruct ip as [i p]. unfold pixel_step.
  destruct ((i >? 0) && negb (p =? nth (Z.to_nat (i - 1)) row 0));
    [destruct (needLine _ rowIndex)|]; try exact H.
  cbn [glob]. rewrite svgPrint_svgFile. apply in_or_app. left. exact H.
Qed.

Lemma fold_keeps_records (l : list (Z * Z)) (s : RowState) (line : SvgLine) :
  In line (svgFile (glob s)) -> In line (svgFile (glob (fold_left step l s))).
Proof.
  revert s. induction l as [|ip l IH]; intros s H; cbn [fold_left];
    [exact H|apply IH, pixel_step_keeps_records, H].
Qed.

(** A scanned row toggles the flag and lengthens the SVG file, or leaves both
    as they were. *)
Lemma scan_samples_drawn (idx : option Z) (g : Globals)
    (invert' : bool) (idx' : option Z) (g' : Globals) :
  scan_samples S_OR_F needLine axes axisDimension rowIndex invert row idx g
    = Return (invert', idx') g' ->
  (invert' = negb invert /\ (length (svgFile g) < length (svgFile g'))%nat) \/
  (invert' = invert /\ g' = g).
Proof.
  unfold scan_samples.
  pose proof (fold_drawn_inv g (enumerate row) (mkRowState false 0 idx g)
                (or_introl (conj eq_refl eq_refl))) as Hinv.
  destruct (fold_left step (enumerate row) (mkRowState false 0 idx g)) as [dr fe ix gl].
  cbn [index glob rowDrawn firstEndpoint] in *.
  destruct ix as [i|]; [|discriminate].
  destruct (getitem row i) as [last|]; [|discriminate].
  destruct (needLine last rowIndex); cbn [index glob rowDrawn]; intros E;
    injection E as <- <- <-.
  - left. split; [reflexivity|]. rewrite svgPrint_svgFile_length.
    destruct Hinv as [[_ H]|[_ H]]; cbn [glob] in H; [rewrite H|]; lia.
  - destruct Hinv as [[Hd H]|[Hd H]]; cbn [glob rowDrawn] in Hd, H; rewrite Hd.
    + right. split; [reflexivity|exact H].
    + left. split; [reflexivity|exact H].
Qed.

End ScanFacts.

(** ** The serpentine flag *)

Lemma rows_loop_app (S_OR_F : Z) (needLine : Z -> Z -> bool) (axes : string * string)
    (axisDimension : Z) (rows1 rows2 : list (Z * list Z)) (invert : bool)
    (idx : option Z) (g : Globals) :
  rows_loop S_OR_F needLine axes axisDimension (rows1 ++ rows2) invert idx g =
  match rows_loop S_OR_F needLine axes axisDimension rows1 invert idx g with
  | Return (invert', idx') g' =>
      rows_loop S_OR_F needLine axes axisDimension rows2 invert' idx' g'
  | Raise e g' => Raise e g'
  end.
Proof.
  revert invert idx g.
  induction rows1 as [|[i r] rows1 IH]; intros invert idx g; cbn [app rows_loop];
    [reflexivity|].
  destruct (scan_row S_OR_F needLine axes axisDimension i r invert idx g)
    as [[invert' idx'] g'|e g']; [apply IH|reflexivity].
Qed.

(** C3. In a pass the flag is false before the first row. Every row is
    scanned with the flag the rows before it left, and leaves it toggled
    exactly when the scan appended a stroke to the SVG file; a row on which
    nothing was drawn leaves it as it was. *)
Theorem invert_toggles_iff_row_drawn :
  (forall S_OR_F needLine axes axisDimension g,
      generateVectors S_OR_F needLine axes axisDimension [] g = Return (false, None) g) /\
  (forall S_OR_F needLine axes axisDimension img row g invert' idx' g',
      generateVectors S_OR_F needLine axes axisDimension (img ++ [row]) g
        = Return (invert', idx') g' ->
      exists invert idx g1,
        generateVectors S_OR_F needLine axes axisDimension img g
          = Return (invert, idx) g1 /\
        scan_row S_OR_F needLine axes axisDimension (Z.of_nat (length img)) row
          invert idx g1 = Return (invert', idx') g' /\
        (invert' = negb invert <-> (length (svgFile g1) < length (svgFile g'))%nat) /\
        (invert' = invert <-> svgFile g' = svgFile g1)).
Proof.
  split; [reflexivity|].
  intros S_OR_F needLine axes axisDimension img row g invert' idx' g'.
  unfold generateVectors. rewrite enumerate_snoc, rows_loop_app.
  destruct (rows_loop S_OR_F needLine axes axisDimension (enumerate img) false None g)
    as [[invert idx] g1|e g1]; [|discriminate].
  cbn [rows_loop].
  destruct (scan_row S_OR_F needLine axes axisDimension (Z.of_nat (length img)) row
              invert idx g1) as [[i2 x2] g2|e g2] eqn:Hrow; [|discriminate].
  intros E. injection E as <- <- <-.
  exists invert, idx, g1. split; [reflexivity|]. split; [exact Hrow|].
  apply scan_samples_drawn in Hrow.
  destruct Hrow as [[-> Hlen]|[-> ->]].
  - split; split; intros H; try reflexivity; try exact Hlen.
    + destruct invert; discriminate H.
    + rewrite H in Hlen. lia.
  - split; split; intros H; try reflexivity.
    + destruct invert; discriminate H.
    + lia.
Qed.

Lemma invert_toggles_iff_row_drawn_witness :
  let g' :=
    globals_of (generateVectors 0 needLineX ("x"%string, "y"%string) 2
                  [[0; 255]; [255; 255]] initial_globals) in
  exists invert idx g1,
    generateVectors 0 needLineX ("x"%string, "y"%string) 2 [[0; 255]] initial_globals
      = Return (invert, idx) g1 /\
    scan_row 0 needLineX ("x"%string, "y"%string) 2 1 [255; 255] invert idx g1
      = Return (true, Some 1) g' /\
    (true = negb invert <-> (length (svgFile g1) < length (svgFile g'))%nat) /\
    (true = invert <-> svgFile g' = svgFile g1).
Proof.
  apply (proj2 invert_toggles_iff_row_drawn 0 needLineX ("x"%string, "y"%string) 2
           [[0; 255]] [255; 255] initial_globals true (Some 1)).
  vm_compute. reflexivity.
Defined.

(** ** Runs bounded by a change of value on both sides *)

Lemma firstn_succ_nth (l : list Z) (k : nat) :
  (k < length l)%nat -> firstn (S k) l = firstn k l ++ [nth k l 0].
Proof.
  revert k. induction l as [|x l IH]; intros k Hk; cbn [length] in Hk; [lia|].
  destruct k as [|k]; [reflexivity|].
  cbn [firstn nth app]. f_equal. apply IH. lia.
Qed.

Section InteriorRuns.

Variable S_OR_F : Z.
Variable needLine : Z -> Z -> bool.
Variable axes : string * string.
Variable axisDimension rowIndex : Z.
Variable invert : bool.
Variable row : list Z.

#[local] Abbreviation step :=
  (pixel_step S_OR_F needLine axes axisDimension rowIndex invert row).

#[local] Abbreviation scan_prefix :=
  (scan_prefix S_OR_F needLine axes axisDimension rowIndex invert row).

Lemma scan_prefix_succ (k : nat) (s0 : RowState) :
  (k < length row)%nat ->
  scan_prefix (S k) s0 = step (scan_prefix k s0) (Z.of_nat k, nth k row 0).
Proof.
  intros Hk. unfold scan_prefix.
  rewrite firstn_succ_nth by exact Hk.
  rewrite enumerate_snoc, fold_left_app, length_firstn, Nat.min_l by lia.
  reflexivity.
Qed.

Lemma scan_prefix_rest (k : nat) (s0 : RowState) :
  fold_left step (enumerate row) s0 =
  fold_left step (enumerate_from (Z.of_nat (length (firstn k row))) (skipn k row))
    (scan_prefix k s0).
Proof.
  unfold scan_prefix, enumerate.
  assert (E : enumerate_from 0 row = enumerate_from 0 (firstn k row ++ skipn k row))
    by (rewrite firstn_skipn; reflexivity).
  rewrite E, enumerate_from_app, fold_left_app. reflexivity.
Qed.

(** The step at sample [k + 1] when its value differs from sample [k]. *)
Lemma step_boundary (k : nat) (s : RowState) :
  nth (S k) row 0 <> nth k row 0 ->
  step s (Z.of_nat (S k), nth (S k) row 0) =
  if needLine (nth k row 0) rowIndex
  then mkRowState true (Z.of_nat (S k)) (Some (Z.of_nat (S k)))
         (svgPrint S_OR_F (firstEndpoint s) (Z.of_nat (S k)) rowIndex invert axes
            axisDimension (nth k row 0) (glob s))
  else mkRowState (rowDrawn s) (Z.of_nat (S k)) (Some (Z.of_nat (S k))) (glob s).
Proof.
  intros Hne. unfold pixel_step.
  replace (Z.to_nat (Z.of_nat (S k) - 1)) with k by lia.
  destruct (Z.gtb_spec (Z.of_nat (S k)) 0) as [_|H]; [|lia].
  destruct (Z.eqb_spec (nth (S k) row 0) (nth k row 0)) as [H|_]; [contradiction|].
  reflexivity.
Qed.

(** The step at sample [k + 1] when its value equals sample [k]. *)
Lemma step_inside (k : nat) (s : RowState) :
  nth (S k) row 0 = nth k row 0 ->
  step s (Z.of_nat (S k), nth (S k) row 0) =
  mkRowState (rowDrawn s) (firstEndpoint s) (Some (Z.of_nat (S k))) (glob s).
Proof.
  intros He. unfold pixel_step.
  replace (Z.to_nat (Z.of_nat (S k) - 1)) with k by lia.
  rewrite He, Z.eqb_refl, andb_false_r. reflexivity.
Qed.

Section OneRun.

Variables s e : nat.
Variable v : Z.
Variable s0 : RowState.

Hypothesis s_pos : (0 < s)%nat.
Hypothesis s_lt_e : (s < e)%nat.
Hypothesis e_inside : (e < length row)%nat.
Hypothesis before : nth (s - 1) row 0 <> v.
Hypothesis inside : forall j, (s <= j < e)%nat -> nth j row 0 = v.
Hypothesis after : nth e row 0 <> v.

Lemma run_start_recorded : firstEndpoint (scan_prefix (S s) s0) = Z.of_nat s.
Proof.
  rewrite scan_prefix_succ by lia.
  destruct s as [|s']; [lia|].
  replace (S s' - 1)%nat with s' in before by lia.
  rewrite step_boundary by (rewrite (inside (S s')) by lia; congruence).
  destruct (needLine (nth s' row 0) rowIndex); reflexivity.
Qed.

Lemma run_start_kept (k : nat) :
  (S s <= k <= e)%nat -> firstEndpoint (scan_prefix k s0) = Z.of_nat s.
Proof.
  induction k as [|k IH]; intros Hk; [lia|].
  destruct (Nat.eq_dec k s) as [->|Hne]; [apply run_start_recorded|].
  rewrite scan_prefix_succ by lia.
  destruct k as [|k']; [lia|].
  rewrite step_inside by (rewrite !inside by lia; reflexivity).
  cbn [firstEndpoint]. apply IH. lia.
Qed.

Lemma run_closed :
  needLine v rowIndex = true ->
  In (mkLine (fst axes) (snd axes)
        (reported invert axisDimension (Z.of_nat s)) rowIndex
        (reported invert axisDimension (Z.of_nat e)) rowIndex (quantize v))
     (svgFile (glob (scan_prefix (S e) s0))).
Proof.
  intros Hneed.
  rewrite scan_prefix_succ by lia.
  assert (Hfe : firstEndpoint (scan_prefix e s0) = Z.of_nat s)
    by (apply run_start_kept; lia).
  destruct e as [|e']; [lia|].
  assert (He' : nth e' row 0 = v) by (apply inside; lia).
  rewrite step_boundary by congruence.
  rewrite He', Hneed. cbn [glob].
  rewrite svgPrint_svgFile, Hfe.
  apply in_or_app. right. left. reflexivity.
Qed.

Lemma interior_run_emitted :
  needLine v rowIndex = true ->
  In (mkLine (fst axes) (snd axes)
        (reported invert axisDimension (Z.of_nat s)) rowIndex
        (reported invert axisDimension (Z.of_nat e)) rowIndex (quantize v))
     (svgFile (glob (fold_left step (enumerate row) s0))).
Proof.
  intros Hneed. rewrite (scan_prefix_rest (S e)).
  apply fold_keeps_records, run_closed, Hneed.
Qed.

End OneRun.

Lemma scan_samples_keeps_records (idx : option Z) (g : Globals) (line : SvgLine) :
  In line (svgFile (glob (fold_left step (enumerate row) (mkRowState false 0 idx g)))) ->
  In line (svgFile (globals_of
     (scan_samples S_OR_F needLine axes axisDimension rowIndex invert row idx g))).
Proof.
  unfold scan_samples.
  destruct (fold_left step (enumerate row) (mkRowState false 0 idx g)) as [dr fe ix gl].
  cbn [index glob rowDrawn firstEndpoint]. intros H.
  destruct ix as [i|]; [|exact H].
  destruct (getitem row i) as [last|]; [|exact H].
  destruct (needLine last rowIndex); cbn [globals_of glob]; [|exact H].
  rewrite svgPrint_svgFile. apply in_or_app. left. exact H.
Qed.

End InteriorRuns.

(** ** A flagged row against an unflagged one *)

(** C6, as stated, fails. On the row [255, 0, 255, 255] of line 0 the
    program, with the flag set, records the stroke from 2 to 1 (the dark
    pixel, right to left), while detection on the unreversed row with
    mirrored coordinates gives the stroke from 3 to 2. Reading the claim as
    reversal alone against mirroring alone does not save it: on
    [0, 255, 255] the first gives a stroke from 2 to 2, the second from 3
    to 2. *)
Lemma flagged_scan_is_not_mirrored_scan :
  strokes (scan_row 0 needLineX ("x"%string, "y"%string) 4 0 [255; 0; 255; 255]
             true None initial_globals)
    = [mkLine "x" "y" 2 0 1 0 0] /\
  strokes (mirrored_unreversed_scan 0 needLineX ("x"%string, "y"%string) 4 0
             [255; 0; 255; 255] None initial_globals)
    = [mkLine "x" "y" 3 0 2 0 0] /\
  ~ flag_equals_mirroring /\
  ~ same_strokes
      (strokes (reversed_unmirrored_scan 0 needLineX ("x"%string, "y"%string) 3 0
                  [0; 255; 255] None initial_globals))
      (strokes (mirrored_unreversed_scan 0 needLineX ("x"%string, "y"%string) 3 0
                  [0; 255; 255] None initial_globals)).
Proof.
  split; [reflexivity|]. split; [reflexivity|]. split.
  - intros H.
    specialize (H 0 needLineX ("x"%string, "y"%string) 0 [255; 0; 255; 255] None
                  initial_globals (mkLine "x" "y" 2 0 1 0 0)).
    destruct H as [H _]. specialize (H (or_introl eq_refl)).
    vm_compute in H. destruct H as [H|[]]. discriminate H.
  - intros H. specialize (H (mkLine "x" "y" 2 0 2 0 0)).
    destruct H as [H _]. specialize (H (or_introl eq_refl)).
    vm_compute in H. destruct H as [H|[]]. discriminate H.
Qed.

(** C6, amended. With the flag set the row is reversed before run detection
    and every reported coordinate is mirrored about the line's dimension as
    well. For an accepted run [s, e) of the row that is bounded by a change
    of value on both sides, the unflagged scan records the stroke from [s] to
    [e] and the flagged scan records the same stroke with its ends exchanged,
    from [e] to [s]. *)
Theorem flagged_scan_retraces_interior_runs
    (S_OR_F : Z) (needLine : Z -> Z -> bool) (axes : string * string)
    (rowIndex : Z) (row : list Z) (s e : nat) (v : Z)
    (idx : option Z) (g : Globals) :
  (0 < s)%nat -> (s < e)%nat -> (e < length row)%nat ->
  nth (s - 1) row 0 <> v ->
  (forall j, (s <= j < e)%nat -> nth j row 0 = v) ->
  nth e row 0 <> v ->
  needLine v rowIndex = true ->
  In (mkLine (fst axes) (snd axes) (Z.of_nat s) rowIndex (Z.of_nat e) rowIndex (quantize v))
     (strokes (scan_row S_OR_F needLine axes (Z.of_nat (length row)) rowIndex row
                 false idx g)) /\
  In (mkLine (fst axes) (snd axes) (Z.of_nat e) rowIndex (Z.of_nat s) rowIndex (quantize v))
     (strokes (scan_row S_OR_F needLine axes (Z.of_nat (length row)) rowIndex row
                 true idx g)).
Proof.
  intros Hs Hse He Hb Hi Ha Hneed. unfold strokes, scan_row. split.
  - apply scan_samples_keeps_records.
    apply (interior_run_emitted S_OR_F needLine axes (Z.of_nat (length row)) rowIndex
             false row s e v _ Hs Hse He Hb Hi Ha Hneed).
  - apply scan_samples_keeps_records.
    pose proof (interior_run_emitted S_OR_F needLine axes (Z.of_nat (length row)) rowIndex
                  true (rev row) (length row - e) (length row - s) v
                  (mkRowState false 0 idx g)) as H.
    unfold reported in H.
    replace (Z.of_nat (length row) - Z.of_nat (length row - e)) with (Z.of_nat e) in H by lia.
    replace (Z.of_nat (length row) - Z.of_nat (length row - s)) with (Z.of_nat s) in H by lia.
    apply H; clear H; rewrite ?length_rev; try lia; try exact Hneed.
    + rewrite rev_nth by lia.
      replace (length row - S (length row - e - 1))%nat with e by lia. exact Ha.
    + intros j Hj. rewrite rev_nth by lia. apply Hi. lia.
    + rewrite rev_nth by lia.
      replace (length row - S (length row - s))%nat with (s - 1)%nat by lia. exact Hb.
Qed.

Lemma flagged_scan_retraces_interior_runs_witness :
  In (mkLine "x" "y" 1 0 2 0 0)
     (strokes (scan_row 0 needLineX ("x"%string, "y"%string) 4 0 [255; 0; 255; 255]
                 false None initial_globals)) /\
  In (mkLine "x" "y" 2 0 1 0 0)
     (strokes (scan_row 0 needLineX ("x"%string, "y"%string) 4 0 [255; 0; 255; 255]
                 true None initial_globals)).
Proof.
  apply (flagged_scan_retraces_interior_runs 0 needLineX ("x"%string, "y"%string) 0
           [255; 0; 255; 255] 1 2 0 None initial_globals).
  - lia.
  - lia.
  - cbn. lia.
  - cbn. discriminate.
  - intros j Hj. assert (j = 1%nat) as -> by lia. reflexivity.
  - cbn. discriminate.
  - reflexivity.
Defined.

(** ** The total length of the evaluated runs *)

Lemma run_lengths_snoc (runs : list (Z * Z)) (r : Z * Z) :
  run_lengths (runs ++ [r]) = run_lengths runs + (snd r - fst r).
Proof.
  induction runs as [|x runs IH]; cbn [app run_lengths fold_right] in *; [lia|].
  fold (run_lengths (runs ++ [r])). fold (run_lengths runs). lia.
Qed.

Section RunTotal.

Variable row : list Z.
Variable axisDimension : Z.

#[local] Abbreviation prefix_state k :=
  (scan_prefix 0 (fun _ _ => true) ("x"%string, "y"%string) axisDimension 0 false row k
     (mkRowState false 0 None initial_globals)).

(** After [k >= 1] samples the runs closed so far cover [0, firstEndpoint)
    with nothing missing, and [index] is the last sample read. *)
Lemma prefix_runs_total (k : nat) :
  (1 <= k <= length row)%nat ->
  run_lengths (map extent (svgFile (glob (prefix_state k)))) = firstEndpoint (prefix_state k) /\
  0 <= firstEndpoint (prefix_state k) <= Z.of_nat k - 1 /\
  index (prefix_state k) = Some (Z.of_nat k - 1).
Proof.
  induction k as [|k IH]; intros Hk; [lia|].
  rewrite scan_prefix_succ by lia.
  destruct k as [|k'].
  - cbn. split; [reflexivity|split; [lia|reflexivity]].
  - destruct IH as (Hsum & Hfe & _); [lia|].
    destruct (Z.eq_dec (nth (S k') row 0) (nth k' row 0)) as [E|E].
    + rewrite step_inside by exact E. cbn [glob firstEndpoint index].
      split; [exact Hsum|split; [lia|f_equal; lia]].
    + rewrite step_boundary by exact E. cbv beta. cbn [glob firstEndpoint index].
      rewrite svgPrint_svgFile, map_app. cbn [map]. rewrite run_lengths_snoc, Hsum.
      cbn [map extent along1 along2 reported fst snd].
      split; [lia|split; [lia|f_equal; lia]].
Qed.

End RunTotal.

Lemma evaluated_runs_total (row : list Z) :
  row <> [] -> run_lengths (evaluated_runs row) = Z.of_nat (length row) - 1.
Proof.
  intros Hne.
  assert (Hlen : (1 <= length row)%nat) by (destruct row; [contradiction|cbn; lia]).
  destruct (prefix_runs_total row (Z.of_nat (length row)) (length row)) as (Hsum & Hfe & Hidx);
    [lia|].
  unfold evaluated_runs, scan_row, scan_samples.
  unfold scan_prefix in Hsum, Hfe, Hidx. rewrite firstn_all in Hsum, Hfe, Hidx.
  destruct (fold_left _ (enumerate row) _) as [dr fe ix gl].
  cbn [index glob firstEndpoint rowDrawn] in *. subst ix.
  unfold getitem.
  destruct (Z.ltb_spec (Z.of_nat (length row) - 1) 0) as [H|_]; [lia|].
  destruct (nth_error row (Z.to_nat (Z.of_nat (length row) - 1))) as [last|] eqn:En.
  - cbn [globals_of glob]. rewrite svgPrint_svgFile, map_app.
    cbn [map]. rewrite run_lengths_snoc, Hsum.
    cbn [extent along1 along2 reported fst snd]. lia.
  - apply nth_error_None in En. lia.
Qed.

(** C2 on the scanline [0, 255]: the detector evaluates the runs (0, 1) and
    (1, 1). The last run is closed at the index of the last sample instead of
    one past it, so it spans no sample, the last pixel belongs to no run, and
    the lengths add up to 1 on a scanline of 2 samples. On the 1 x 2 image
    [[255, 0]] the program draws that empty run: a stroke from 1 to 1. On
    every non-empty scanline the lengths of the evaluated runs add up to one
    less than the number of samples. *)
Theorem last_run_closed_one_short :
  evaluated_runs [0; 255] = [(0, 1); (1, 1)] /\
  run_lengths (evaluated_runs [0; 255]) = 1 /\
  Z.of_nat (length [0; 255]) = 2 /\
  map extent
    (svgFile (globals_of (main_passes 0 2 1 [[255; 0]] initial_globals))) = [(1, 1)] /\
  (forall row, row <> [] ->
     run_lengths (evaluated_runs row) = Z.of_nat (length row) - 1).
Proof.
  split; [reflexivity|]. split; [reflexivity|]. split; [reflexivity|].
  split; [reflexivity|]. exact evaluated_runs_total.
Qed.

(** * Further properties of the code *)

(** ** The shade reduction *)

(** X1. Every sample is reduced to one of the six levels, and a reduced
    sample is left as it is by a second reduction. *)
Theorem reduce_shade_six_levels (px : Z) :
  In (reduce_shade px) [shade1; shade2; shade3; shade4; shade5; 255] /\
  reduce_shade (reduce_shade px) = reduce_shade px.
Proof.
  unfold reduce_shade, shade1, shade2, shade3, shade4, shade5, shade6.
  repeat match goal with
  | |- context [?a <? ?b] => destruct (Z.ltb_spec a b); try lia
  end; cbn; split; auto 10; reflexivity.
Qed.

(** X2. The reduction keeps the order of the samples; it never lightens a
    sample below [shade6], and sends every sample from [shade6] on to 255. *)
Theorem reduce_shade_monotone_darkening :
  (forall px px', px <= px' -> reduce_shade px <= reduce_shade px') /\
  (forall px, 0 <= px < shade6 -> reduce_shade px <= px) /\
  (forall px, shade6 <= px -> reduce_shade px = 255).
Proof.
  unfold reduce_shade, shade1, shade2, shade3, shade4, shade5, shade6.
  split; [|split]; intros;
    repeat match goal with
    | |- context [?a <? ?b] => destruct (Z.ltb_spec a b); try lia
    end.
Qed.

(** ** The runs of one row, in order *)

Lemma runs_between_weaken (lo hi hi' : Z) (runs : list (Z * Z * Z)) :
  runs_between lo hi runs -> hi <= hi' -> runs_between lo hi' runs.
Proof.
  revert lo. induction runs as [|[[s e] v] runs IH]; intros lo H Hle; cbn in *; [lia|].
  destruct H as (H1 & H2 & H3). auto.
Qed.

Lemma runs_between_snoc (lo hi stop val : Z) (runs : list (Z * Z * Z)) :
  runs_between lo hi runs -> hi <= stop ->
  runs_between lo stop (runs ++ [(hi, stop, val)]).
Proof.
  revert lo. induction runs as [|[[s e] v] runs IH]; intros lo H Hle; cbn in *; [lia|].
  destruct H as (H1 & H2 & H3). auto.
Qed.

Lemma runs_between_bounds (lo hi : Z) (runs : list (Z * Z * Z)) :
  runs_between lo hi runs ->
  lo <= hi /\
  Forall (fun r => lo <= fst (fst r) /\ fst (fst r) <= snd (fst r) /\ snd (fst r) <= hi) runs.
Proof.
  revert lo. induction runs as [|[[s e] v] runs IH]; intros lo H; cbn in *.
  - split; [exact H|constructor].
  - destruct H as (H1 & H2 & H3). destruct (IH _ H3) as (H4 & H5).
    split; [lia|]. constructor; [cbn; lia|].
    eapply Forall_impl; [|exact H5]. cbn. intros r Hr. lia.
Qed.

Section ScanRuns.

Variable S_OR_F : Z.
Variable needLine : Z -> Z -> bool.
Variable axes : string * string.
Variable axisDimension rowIndex : Z.
Variable invert : bool.
Variable row : list Z.
Variable idx : option Z.
Variable g : Globals.

#[local] Abbreviation state_after k :=
  (scan_prefix S_OR_F needLine axes axisDimension rowIndex invert row k
     (mkRowState false 0 idx g)).

(** After [k >= 1] samples: the strokes recorded so far are the records of
    accepted runs that follow one another from 0 up to [firstEndpoint], and
    [index] is bound to the last sample read. *)
Lemma prefix_runs (k : nat) :
  (1 <= k <= length row)%nat ->
  exists runs,
    svgFile (glob (state_after k))
      = svgFile g ++ map (run_record axes axisDimension rowIndex invert) runs /\
    runs_between 0 (firstEndpoint (state_after k)) runs /\
    firstEndpoint (state_after k) <= Z.of_nat k - 1 /\
    index (state_after k) = Some (Z.of_nat k - 1) /\
    Forall (accepted_run needLine rowIndex row) runs.
Proof.
  induction k as [|k IH]; intros Hk; [lia|].
  rewrite scan_prefix_succ by lia.
  destruct k as [|k'].
  - exists []. cbn. rewrite app_nil_r.
    split; [reflexivity|]. split; [lia|]. split; [lia|]. split; [reflexivity|constructor].
  - destruct IH as (runs & Hsvg & Hbet & Hfe & _ & Hacc); [lia|].
    destruct (Z.eq_dec (nth (S k') row 0) (nth k' row 0)) as [E|E].
    + rewrite step_inside by exact E. cbn [glob firstEndpoint index].
      exists runs. split; [exact Hsvg|]. split; [exact Hbet|].
      split; [lia|]. split; [f_equal; lia|exact Hacc].
    + rewrite step_boundary by exact E.
      destruct (needLine (nth k' row 0) rowIndex) eqn:Hneed; cbn [glob firstEndpoint index].
      * exists (runs ++ [(firstEndpoint (state_after (S k')), Z.of_nat (S k'), nth k' row 0)]).
        split.
        { rewrite svgPrint_svgFile, Hsvg, map_app, <- app_assoc. reflexivity. }
        split; [apply runs_between_snoc; [exact Hbet|lia]|].
        split; [lia|]. split; [f_equal; lia|].
        apply Forall_app. split; [exact Hacc|].
        constructor; [|constructor]. split; [apply nth_In; lia|exact Hneed].
      * exists runs. split; [exact Hsvg|].
        split; [apply (runs_between_weaken _ _ _ _ Hbet); lia|].
        split; [lia|]. split; [f_equal; lia|exact Hacc].
Qed.

(** A non-empty row is scanned to its end without an exception; the strokes
    it adds are the records of accepted runs that follow one another between
    sample 0 and the last sample. *)
Lemma scan_samples_runs :
  row <> [] ->
  exists runs invert' g',
    scan_samples S_OR_F needLine axes axisDimension rowIndex invert row idx g
      = Return (invert', Some (Z.of_nat (length row) - 1)) g' /\
    svgFile g' = svgFile g ++ map (run_record axes axisDimension rowIndex invert) runs /\
    runs_between 0 (Z.of_nat (length row) - 1) runs /\
    Forall (accepted_run needLine rowIndex row) runs.
Proof.
  intros Hne.
  assert (Hlen : (1 <= length row)%nat) by (destruct row; [contradiction|cbn; lia]).
  destruct (prefix_runs (length row)) as (runs & Hsvg & Hbet & Hfe & Hidx & Hacc); [lia|].
  unfold scan_samples.
  unfold scan_prefix in Hsvg, Hbet, Hfe, Hidx. rewrite firstn_all in Hsvg, Hbet, Hfe, Hidx.
  destruct (fold_left _ (enumerate row) _) as [dr fe ix gl].
  cbn [index glob firstEndpoint rowDrawn] in *. subst ix.
  unfold getitem.
  destruct (Z.ltb_spec (Z.of_nat (length row) - 1) 0) as [H|_]; [lia|].
  destruct (nth_error row (Z.to_nat (Z.of_nat (length row) - 1))) as [last|] eqn:En;
    [|apply nth_error_None in En; lia].
  destruct (needLine last rowIndex) eqn:Hneed; cbn [index glob rowDrawn].
  - exists (runs ++ [(fe, Z.of_nat (length row) - 1, last)]), (negb invert). eexists.
    split; [reflexivity|]. split.
    { rewrite svgPrint_svgFile, Hsvg, map_app, <- app_assoc. reflexivity. }
    split; [apply runs_between_snoc; [exact Hbet|lia]|].
    apply Forall_app. split; [exact Hacc|].
    constructor; [|constructor]. split; [eapply nth_error_In; exact En|exact Hneed].
  - exists runs. do 2 eexists. split; [reflexivity|]. split; [exact Hsvg|].
    split; [apply (runs_between_weaken _ _ _ _ Hbet); lia|exact Hacc].
Qed.

End ScanRuns.

Lemma scan_row_runs (S_OR_F : Z) (needLine : Z -> Z -> bool) (axes : string * string)
    (axisDimension rowIndex : Z) (row : list Z) (invert : bool) (idx : option Z)
    (g : Globals) :
  row <> [] ->
  exists runs invert' g',
    scan_row S_OR_F needLine axes axisDimension rowIndex row invert idx g
      = Return (invert', Some (Z.of_nat (length row) - 1)) g' /\
    svgFile g' = svgFile g ++ map (run_record axes axisDimension rowIndex invert) runs /\
    runs_between 0 (Z.of_nat (length row) - 1) runs /\
    Forall (accepted_run needLine rowIndex row) runs.
Proof.
  intros Hne. unfold scan_row.
  destruct invert.
  - destruct (scan_samples_runs S_OR_F needLine axes axisDimension rowIndex true (rev row)
                idx g) as (runs & i' & g' & H1 & H2 & H3 & H4).
    { intros E. apply (f_equal (@rev Z)) in E. rewrite rev_involutive in E. contradiction. }
    rewrite length_rev in H1, H3.
    exists runs, i', g'. split; [exact H1|]. split; [exact H2|]. split; [exact H3|].
    eapply Forall_impl; [|exact H4]. intros r [Hin Hn].
    split; [apply in_rev; exact Hin|exact Hn].
  - apply scan_samples_runs. exact Hne.
Qed.

Lemma runs_sorted (axes : string * string) (axisDimension rowIndex : Z) (invert : bool)
    (lo hi : Z) (runs : list (Z * Z * Z)) :
  runs_between lo hi runs ->
  Sorted (follows invert) (map (run_record axes axisDimension rowIndex invert) runs).
Proof.
  revert lo. induction runs as [|[[s e] v] runs IH]; intros lo H; cbn [map]; [constructor|].
  destruct H as (H1 & H2 & H3). constructor; [apply (IH _ H3)|].
  destruct runs as [|[[s2 e2] v2] runs]; cbn [map]; constructor.
  destruct H3 as (H4 & _).
  unfold follows, run_record, reported. destruct invert; cbn [along1 along2]; lia.
Qed.

(** X3. A non-empty row whose length is the line's dimension is scanned
    without an exception and leaves [index] at its last sample. Its strokes
    are written in scanning order without overlap: unflagged, each runs
    towards larger coordinates inside 0 .. dimension - 1 and starts no
    earlier than the one before ended; flagged, each runs towards smaller
    coordinates inside 1 .. dimension and starts no later than the one
    before ended. *)
Theorem row_strokes_in_scan_order
    (S_OR_F : Z) (needLine : Z -> Z -> bool) (axes : string * string)
    (rowIndex : Z) (row : list Z) (invert : bool) (idx : option Z) (g : Globals) :
  row <> [] ->
  let W := Z.of_nat (length row) in
  exists new invert' g',
    scan_row S_OR_F needLine axes W rowIndex row invert idx g
      = Return (invert', Some (W - 1)) g' /\
    svgFile g' = svgFile g ++ new /\
    Sorted (follows invert) new /\
    Forall (fun l =>
              if invert
              then 1 <= along2 l /\ along2 l <= along1 l /\ along1 l <= W
              else 0 <= along1 l /\ along1 l <= along2 l /\ along2 l <= W - 1) new.
Proof.
  intros Hne W.
  destruct (scan_row_runs S_OR_F needLine axes W rowIndex row invert idx g Hne)
    as (runs & i' & g' & H1 & H2 & H3 & _).
  exists (map (run_record axes W rowIndex invert) runs), i', g'.
  split; [exact H1|]. split; [exact H2|].
  split; [apply (runs_sorted _ _ _ _ _ _ _ H3)|].
  apply Forall_map. apply runs_between_bounds in H3. destruct H3 as [_ H3].
  eapply Forall_impl; [|exact H3]. intros [[s e] v]. cbn [fst snd].
  unfold run_record, reported. destruct invert; cbn [along1 along2]; fold W; lia.
Qed.

Lemma row_strokes_in_scan_order_witness :
  exists new invert' g',
    scan_row 0 needLineX ("x"%string, "y"%string) 4 0 [0; 255; 0; 0] true None initial_globals
      = Return (invert', Some (4 - 1)) g' /\
    svgFile g' = svgFile initial_globals ++ new /\
    Sorted (follows true) new /\
    Forall (fun l => 1 <= along2 l /\ along2 l <= along1 l /\ along1 l <= 4) new.
Proof.
  apply (row_strokes_in_scan_order 0 needLineX ("x"%string, "y"%string) 0 [0; 255; 0; 0]
           true None initial_globals).
  discriminate.
Defined.

(** ** The strokes of a pass *)

Lemma in_enumerate_from {A : Type} (l : list A) (n i : Z) (x : A) :
  In (i, x) (enumerate_from n l) ->
  n <= i /\ nth_error l (Z.to_nat (i - n)) = Some x.
Proof.
  revert n. induction l as [|y l IH]; intros n H; cbn [enumerate_from] in H; [contradiction|].
  destruct H as [E|H].
  - injection E as <- <-. rewrite Z.sub_diag. split; [lia|reflexivity].
  - apply IH in H. destruct H as [H1 H2]. split; [lia|].
    replace (Z.to_nat (i - n)) with (S (Z.to_nat (i - (n + 1)))) by lia. exact H2.
Qed.

Lemma enumerate_from_rows_nonempty (img : list (list Z)) (n : Z) :
  Forall (fun row => row <> []) img ->
  Forall (fun ir : Z * list Z => snd ir <> []) (enumerate_from n img).
Proof.
  intros H. revert n. induction H as [|row img Hrow _ IH]; intros n; cbn [enumerate_from];
    constructor; [exact Hrow|apply IH].
Qed.

Section PassStrokes.

Variable S_OR_F : Z.
Variable needLine : Z -> Z -> bool.
Variable axes : string * string.
Variable axisDimension : Z.

(** Rows that are all non-empty are scanned to the end; every stroke added
    is a stroke of one of the rows. *)
Lemma rows_loop_strokes (rows : list (Z * list Z)) :
  Forall (fun ir => snd ir <> []) rows ->
  forall invert idx g,
  exists r g' new,
    rows_loop S_OR_F needLine axes axisDimension rows invert idx g = Return r g' /\
    svgFile g' = svgFile g ++ new /\
    Forall (fun l => exists i row,
                In (i, row) rows /\
                stroke_of_row needLine axes axisDimension i row l) new.
Proof.
  induction 1 as [|[i row] rows Hrow _ IH]; intros invert idx g; cbn [rows_loop].
  - exists (invert, idx), g, []. rewrite app_nil_r. repeat split; constructor.
  - cbn [snd] in Hrow.
    destruct (scan_row_runs S_OR_F needLine axes axisDimension i row invert idx g Hrow)
      as (runs & i' & g1 & H1 & H2 & H3 & H4).
    rewrite H1.
    destruct (IH i' (Some (Z.of_nat (length row) - 1)) g1) as (r & g' & new & H5 & H6 & H7).
    exists r, g', (map (run_record axes axisDimension i invert) runs ++ new).
    split; [exact H5|]. split; [rewrite H6, H2, app_assoc; reflexivity|].
    apply Forall_app. split.
    + apply Forall_map. apply runs_between_bounds in H3. destruct H3 as [_ H3].
      rewrite Forall_forall in *. intros [[s e] v] Hin.
      specialize (H3 _ Hin). specialize (H4 _ Hin). destruct H4 as [H4 H4'].
      cbn [fst snd] in *.
      exists i, row. split; [left; reflexivity|].
      exists invert, s, e, v. repeat split; try assumption; lia.
    + eapply Forall_impl; [|exact H7]. intros l (i2 & row2 & Hin & Hs).
      exists i2, row2. split; [right; exact Hin|exact Hs].
Qed.

(** A pass over rows that are all non-empty and hold no accepted sample
    changes nothing: no stroke, no G-code line, the same remembered end. *)
Lemma rows_loop_blank (rows : list (Z * list Z)) :
  Forall (fun ir => snd ir <> [] /\
                    forall v, In v (snd ir) -> needLine v (fst ir) = false) rows ->
  forall invert idx g,
  exists idx',
    rows_loop S_OR_F needLine axes axisDimension rows invert idx g
      = Return (invert, idx') g.
Proof.
  induction 1 as [|[i row] rows [Hrow Hrej] _ IH]; intros invert idx g; cbn [rows_loop].
  - exists idx. reflexivity.
  - cbn [fst snd] in Hrow, Hrej.
    destruct (scan_row_runs S_OR_F needLine axes axisDimension i row invert idx g Hrow)
      as (runs & i' & g1 & H1 & H2 & _ & H4).
    assert (runs = []) as ->.
    { destruct runs as [|r runs]; [reflexivity|].
      apply Forall_inv in H4. destruct H4 as [Hin Hn].
      rewrite (Hrej _ Hin) in Hn. discriminate Hn. }
    cbn [map] in H2. rewrite app_nil_r in H2.
    pose proof H1 as Hd. apply scan_samples_drawn in Hd.
    destruct Hd as [[_ Hlt]|[-> ->]]; [rewrite H2 in Hlt; lia|].
    rewrite H1. apply IH.
Qed.

End PassStrokes.

(** X4. A pass over an image whose rows are all non-empty ends without an
    exception, and every stroke it records belongs to one row [i] of the
    image: it carries the pass's attribute names and the row number [i] at
    both ends, and its grey is the quantised shade of a sample of that row
    which the predicate accepts on line [i]. *)
Theorem pass_strokes_from_accepted_samples
    (S_OR_F : Z) (needLine : Z -> Z -> bool) (axes : string * string)
    (axisDimension : Z) (img : list (list Z)) (g : Globals) :
  Forall (fun row => row <> []) img ->
  exists r g' new,
    generateVectors S_OR_F needLine axes axisDimension img g = Return r g' /\
    svgFile g' = svgFile g ++ new /\
    forall l, In l new ->
      exists (i : nat) row val,
        nth_error img i = Some row /\ In val row /\
        needLine val (Z.of_nat i) = true /\
        attr0 l = fst axes /\ attr1 l = snd axes /\
        across1 l = Z.of_nat i /\ across2 l = Z.of_nat i /\
        gray l = quantize val.
Proof.
  intros Hne. unfold generateVectors.
  destruct (rows_loop_strokes S_OR_F needLine axes axisDimension (enumerate img)
              (enumerate_from_rows_nonempty img 0 Hne) false None g)
    as (r & g' & new & H1 & H2 & H3).
  exists r, g', new. split; [exact H1|]. split; [exact H2|].
  intros l Hl. rewrite Forall_forall in H3.
  destruct (H3 l Hl) as (i & row & Hin & inv & s & e & v & -> & _ & _ & Hv & Hn).
  apply in_enumerate_from in Hin. destruct Hin as [Hi Hnth]. rewrite Z.sub_0_r in Hnth.
  exists (Z.to_nat i), row, v. rewrite Z2Nat.id by exact Hi.
  repeat split; assumption.
Qed.

Lemma pass_strokes_from_accepted_samples_witness :
  exists r g' new,
    generateVectors 0 needLineX ("x"%string, "y"%string) 2 [[0; 255]; [50; 50]] initial_globals
      = Return r g' /\
    svgFile g' = svgFile initial_globals ++ new /\
    forall l, In l new ->
      exists (i : nat) row val,
        nth_error [[0; 255]; [50; 50]] i = Some row /\ In val row /\
        needLineX val (Z.of_nat i) = true /\
        attr0 l = "x"%string /\ attr1 l = "y"%string /\
        across1 l = Z.of_nat i /\ across2 l = Z.of_nat i /\
        gray l = quantize val.
Proof.
  apply (pass_strokes_from_accepted_samples 0 needLineX ("x"%string, "y"%string) 2
           [[0; 255]; [50; 50]] initial_globals).
  repeat constructor; discriminate.
Defined.

(** X5. In a pass over an image whose rows all have the length given as the
    line's dimension, every recorded stroke lies inside the image: both ends
    along the line are between 0 and the dimension, and the line number is
    the index of a row. *)
Theorem pass_strokes_inside_image
    (S_OR_F : Z) (needLine : Z -> Z -> bool) (axes : string * string)
    (axisDimension : Z) (img : list (list Z)) (g : Globals) :
  0 < axisDimension ->
  Forall (fun row => Z.of_nat (length row) = axisDimension) img ->
  exists r g' new,
    generateVectors S_OR_F needLine axes axisDimension img g = Return r g' /\
    svgFile g' = svgFile g ++ new /\
    forall l, In l new ->
      0 <= along1 l <= axisDimension /\
      0 <= along2 l <= axisDimension /\
      0 <= across1 l < Z.of_nat (length img) /\
      across2 l = across1 l.
Proof.
  intros Hpos Hlen. unfold generateVectors.
  assert (Hne : Forall (fun row : list Z => row <> []) img).
  { eapply Forall_impl; [|exact Hlen]. intros row H ->. cbn in H. lia. }
  destruct (rows_loop_strokes S_OR_F needLine axes axisDimension (enumerate img)
              (enumerate_from_rows_nonempty img 0 Hne) false None g)
    as (r & g' & new & H1 & H2 & H3).
  exists r, g', new. split; [exact H1|]. split; [exact H2|].
  intros l Hl. rewrite Forall_forall in H3, Hlen.
  destruct (H3 l Hl) as (i & row & Hin & inv & s & e & v & -> & Hse & He & _ & _).
  apply in_enumerate_from in Hin. destruct Hin as [Hi Hnth]. rewrite Z.sub_0_r in Hnth.
  assert (Hrow : Z.of_nat (length row) = axisDimension)
    by (apply Hlen; eapply nth_error_In; exact Hnth).
  assert (Hlt : (Z.to_nat i < length img)%nat)
    by (apply nth_error_Some; rewrite Hnth; discriminate).
  unfold run_record, reported. cbn [along1 along2 across1 across2].
  destruct inv; repeat split; lia.
Qed.

Lemma pass_strokes_inside_image_witness :
  exists r g' new,
    generateVectors 0 needLineX ("x"%string, "y"%string) 2 [[0; 255]; [50; 50]] initial_globals
      = Return r g' /\
    svgFile g' = svgFile initial_globals ++ new /\
    forall l, In l new ->
      0 <= along1 l <= 2 /\ 0 <= along2 l <= 2 /\
      0 <= across1 l < Z.of_nat (length [[0; 255]; [50; 50]]) /\
      across2 l = across1 l.
Proof.
  apply (pass_strokes_inside_image 0 needLineX ("x"%string, "y"%string) 2
           [[0; 255]; [50; 50]] initial_globals).
  - lia.
  - repeat constructor.
Defined.

(** ** The two passes of [main] *)

Lemma reduce_shade_is_level (px : Z) : is_level (reduce_shade px).
Proof.
  unfold is_level, reduce_shade, shade1, shade2, shade3, shade4, shade5, shade6.
  repeat match goal with
  | |- context [?a <? ?b] => destruct (Z.ltb_spec a b)
  end; cbn; auto 10.
Qed.

Lemma reduced_rows (width height : Z) (image : list (list Z)) :
  rectangular width height image ->
  rectangular width height (map (map reduce_shade) image) /\
  forall row v, In row (map (map reduce_shade) image) -> In v row ->
    exists px, v = reduce_shade px /\ exists row0, In row0 image /\ In px row0.
Proof.
  intros (Hw & Hh & Hrows). split.
  - split; [exact Hw|]. split; [rewrite length_map; exact Hh|].
    apply Forall_map. eapply Forall_impl; [|exact Hrows].
    cbn. intros row H. rewrite length_map. exact H.
  - intros row v Hrow Hv. apply in_map_iff in Hrow. destruct Hrow as (row0 & <- & Hrow0).
    apply in_map_iff in Hv. destruct Hv as (px & <- & Hpx).
    exists px. split; [reflexivity|]. exists row0. split; assumption.
Qed.

(** The rows of the swapped array are the columns of the image. *)
Lemma swapaxes_rows (width height : Z) (image : list (list Z)) :
  rectangular width height image ->
  Z.of_nat (length (swapaxes width image)) = width /\
  forall row, In row (swapaxes width image) ->
    Z.of_nat (length row) = height /\
    forall v, In v row -> exists row0, In row0 image /\ In v row0.
Proof.
  intros (Hw & Hh & Hrows). unfold swapaxes. split.
  - rewrite length_map, length_seq. lia.
  - intros row Hrow. apply in_map_iff in Hrow. destruct Hrow as (j & <- & Hj).
    apply in_seq in Hj. split; [rewrite length_map; exact Hh|].
    intros v Hv. apply in_map_iff in Hv. destruct Hv as (row0 & <- & Hrow0).
    exists row0. split; [exact Hrow0|].
    rewrite Forall_forall in Hrows. specialize (Hrows _ Hrow0). cbn in Hrows.
    apply nth_In. lia.
Qed.

Lemma rows_of_length_nonempty (n : Z) (img : list (list Z)) :
  0 < n ->
  (forall row, In row img -> Z.of_nat (length row) = n) ->
  Forall (fun row => row <> []) img.
Proof.
  intros Hn H. apply Forall_forall. intros row Hin ->. specialize (H _ Hin). cbn in H. lia.
Qed.

Section MainPasses.

Variable S_OR_F : Z.
Variables width height : Z.
Variable image : list (list Z).
Variable g : Globals.

Hypothesis shape : rectangular width height image.
Hypothesis width_pos : 0 < width.
Hypothesis height_pos : 0 < height.

(** Both passes end; the strokes of the horizontal pass, then those of the
    vertical pass, each from an accepted level of the reduced image. *)
Lemma main_passes_strokes :
  exists r g' newx newy,
    main_passes S_OR_F width height image g = Return r g' /\
    svgFile g' = svgFile g ++ newx ++ newy /\
    (forall l, In l newx ->
       attr0 l = "x"%string /\
       exists val, is_level val /\ needLineX val (across1 l) = true /\
                   gray l = quantize val) /\
    (forall l, In l newy ->
       attr0 l = "y"%string /\
       exists val, is_level val /\ needLineY val (across1 l) = true /\
                   gray l = quantize val).
Proof.
  destruct (reduced_rows width height image shape) as [Hshape Hlev].
  destruct (swapaxes_rows width height _ Hshape) as [_ Hcols].
  unfold main_passes.
  set (reduced := map (map reduce_shade) image) in *.
  assert (Hne1 : Forall (fun row : list Z => row <> []) reduced).
  { apply (rows_of_length_nonempty width); [exact width_pos|].
    destruct Hshape as (_ & _ & H). rewrite Forall_forall in H. exact H. }
  assert (Hne2 : Forall (fun row : list Z => row <> []) (swapaxes width reduced)).
  { apply (rows_of_length_nonempty height); [exact height_pos|].
    intros row Hrow. apply (Hcols row Hrow). }
  unfold generateVectors.
  destruct (rows_loop_strokes S_OR_F needLineX ("x"%string, "y"%string) width
              (enumerate reduced) (enumerate_from_rows_nonempty _ 0 Hne1) false None g)
    as (r1 & g1 & newx & H1 & H2 & H3).
  rewrite H1.
  destruct (rows_loop_strokes S_OR_F needLineY ("y"%string, "x"%string) height
              (enumerate (swapaxes width reduced)) (enumerate_from_rows_nonempty _ 0 Hne2)
              false None g1)
    as (r2 & g2 & newy & H4 & H5 & H6).
  exists r2, g2, newx, newy. split; [exact H4|].
  split; [rewrite H5, H2, app_assoc; reflexivity|].
  rewrite Forall_forall in H3, H6. split.
  - intros l Hl.
    destruct (H3 l Hl) as (i & row & Hin & inv & s & e & v & -> & _ & _ & Hv & Hn).
    apply in_enumerate_from in Hin. destruct Hin as [_ Hnth].
    apply nth_error_In in Hnth.
    destruct (Hlev row v Hnth Hv) as (px & -> & _).
    split; [reflexivity|]. exists (reduce_shade px).
    split; [apply reduce_shade_is_level|]. split; [exact Hn|reflexivity].
  - intros l Hl.
    destruct (H6 l Hl) as (i & row & Hin & inv & s & e & v & -> & _ & _ & Hv & Hn).
    apply in_enumerate_from in Hin. destruct Hin as [_ Hnth].
    apply nth_error_In in Hnth.
    destruct (Hcols row Hnth) as [_ Hcol]. destruct (Hcol v Hv) as (row0 & Hrow0 & Hv0).
    destruct (Hlev row0 v Hrow0 Hv0) as (px & -> & _).
    split; [reflexivity|]. exists (reduce_shade px).
    split; [apply reduce_shade_is_level|]. split; [exact Hn|reflexivity].
Qed.

(** An image with no sample below [shade6] leaves everything as it was. *)
Lemma main_passes_blank :
  (forall row px, In row image -> In px row -> shade6 <= px) ->
  exists idx, main_passes S_OR_F width height image g = Return (false, idx) g.
Proof.
  intros Hwhite.
  destruct (reduced_rows width height image shape) as [Hshape Hlev].
  destruct (swapaxes_rows width height _ Hshape) as [_ Hcols].
  unfold main_passes.
  set (reduced := map (map reduce_shade) image) in *.
  assert (Hall : forall row v, In row reduced -> In v row -> v = 255).
  { intros row v Hrow Hv. destruct (Hlev row v Hrow Hv) as (px & -> & row0 & Hr0 & Hpx).
    specialize (Hwhite _ _ Hr0 Hpx). unfold reduce_shade, shade1, shade2, shade3, shade4,
      shade5, shade6 in *.
    repeat match goal with
    | |- context [?a <? ?b] => destruct (Z.ltb_spec a b); try lia
    end. }
  unfold generateVectors.
  destruct (rows_loop_blank S_OR_F needLineX ("x"%string, "y"%string) width
              (enumerate reduced)) with (invert := false) (idx := @None Z) (g := g)
    as [idx1 H1].
  { apply Forall_forall. intros [i row] Hin. cbn [fst snd].
    apply in_enumerate_from in Hin. destruct Hin as [_ Hnth]. apply nth_error_In in Hnth.
    split.
    - intros ->. destruct Hshape as (_ & _ & H). rewrite Forall_forall in H.
      specialize (H _ Hnth). cbn in H. lia.
    - intros v Hv. rewrite (Hall _ _ Hnth Hv).
      destruct (needLineX 255 i) eqn:E; [|reflexivity].
      apply needLineX_spec in E. unfold shade1, shade3, shade5 in E. lia. }
  rewrite H1.
  destruct (rows_loop_blank S_OR_F needLineY ("y"%string, "x"%string) height
              (enumerate (swapaxes width reduced))) with (invert := false) (idx := @None Z)
              (g := g)
    as [idx2 H2].
  { apply Forall_forall. intros [i row] Hin. cbn [fst snd].
    apply in_enumerate_from in Hin. destruct Hin as [_ Hnth]. apply nth_error_In in Hnth.
    destruct (Hcols row Hnth) as [Hlen Hcol]. split.
    - intros ->. cbn in Hlen. lia.
    - intros v Hv. destruct (Hcol v Hv) as (row0 & Hrow0 & Hv0).
      rewrite (Hall _ _ Hrow0 Hv0).
      destruct (needLineY 255 i) eqn:E; [|reflexivity].
      apply needLineY_spec in E. unfold shade1, shade2, shade3, shade4 in E. lia. }
  exists idx2. exact H2.
Qed.

End MainPasses.

(** X6. On a rectangular image with at least one row and one column both
    passes of [main] run to their end: no exception is raised. *)
Theorem main_passes_no_exception
    (S_OR_F width height : Z) (image : list (list Z)) (g : Globals) :
  rectangular width height image -> 0 < width -> 0 < height ->
  exists r g', main_passes S_OR_F width height image g = Return r g'.
Proof.
  intros Hs Hw Hh.
  destruct (main_passes_strokes S_OR_F width height image g Hs Hw Hh)
    as (r & g' & _ & _ & H & _).
  exists r, g'. exact H.
Qed.

Lemma main_passes_no_exception_witness :
  exists r g', main_passes 0 2 1 [[17; 230]] initial_globals = Return r g'.
Proof.
  apply (main_passes_no_exception 0 2 1 [[17; 230]] initial_globals).
  - split; [lia|]. split; [reflexivity|]. repeat constructor.
  - lia.
  - lia.
Defined.

(** X7. An image in which every sample is at least [shade6] (white after
    the reduction) produces nothing: no stroke is recorded, no G-code line
    is written, the remembered end of the last stroke is untouched, and the
    flag of the last pass ends false. *)
Theorem main_passes_white_image
    (S_OR_F width height : Z) (image : list (list Z)) (g : Globals) :
  rectangular width height image -> 0 < width -> 0 < height ->
  (forall row px, In row image -> In px row -> shade6 <= px) ->
  exists idx, main_passes S_OR_F width height image g = Return (false, idx) g.
Proof.
  intros Hs Hw Hh Hwhite.
  exact (main_passes_blank S_OR_F width height image g Hs Hw Hh Hwhite).
Qed.

Lemma main_passes_white_image_witness :
  exists idx,
    main_passes 0 2 2 [[255; 240]; [250; 255]] initial_globals
      = Return (false, idx) initial_globals.
Proof.
  apply (main_passes_white_image 0 2 2 [[255; 240]; [250; 255]] initial_globals).
  - split; [lia|]. split; [reflexivity|]. repeat constructor.
  - lia.
  - lia.
  - unfold shade6. cbn. intros row px [<-|[<-|[]]] Hpx; cbn in Hpx;
      destruct Hpx as [<-|[<-|[]]]; lia.
Defined.

(** X8. On a rectangular image with at least one row and one column, every
    stroke [main] records is either horizontal, on an even row, in one of
    the greys 0, 42, 84, 126, 210; or vertical, on a column whose index is
    divisible by 4, in grey 42 or 126. The horizontal strokes are all
    recorded before the vertical ones. *)
Theorem main_strokes_lines_and_greys
    (S_OR_F width height : Z) (image : list (list Z)) (g : Globals) :
  rectangular width height image -> 0 < width -> 0 < height ->
  exists r g' newx newy,
    main_passes S_OR_F width height image g = Return r g' /\
    svgFile g' = svgFile g ++ newx ++ newy /\
    (forall l, In l newx ->
       attr0 l = "x"%string /\ across1 l mod 2 = 0 /\ In (gray l) [0; 42; 84; 126; 210]) /\
    (forall l, In l newy ->
       attr0 l = "y"%string /\ across1 l mod 4 = 0 /\ In (gray l) [42; 126]).
Proof.
  intros Hs Hw Hh.
  destruct (main_passes_strokes S_OR_F width height image g Hs Hw Hh)
    as (r & g' & newx & newy & H1 & H2 & Hx & Hy).
  exists r, g', newx, newy. split; [exact H1|]. split; [exact H2|]. split.
  - intros l Hl. destruct (Hx l Hl) as (Ha & val & Hlev & Hn & ->).
    split; [exact Ha|]. apply needLineX_spec in Hn.
    unfold is_level, shade1, shade2, shade3, shade4, shade5 in *. cbn [In] in Hlev.
    split; [mod_lia|].
    destruct Hlev as [<-|[<-|[<-|[<-|[<-|[<-|[]]]]]]]; cbn; auto 10; lia.
  - intros l Hl. destruct (Hy l Hl) as (Ha & val & Hlev & Hn & ->).
    split; [exact Ha|]. apply needLineY_spec in Hn.
    unfold is_level, shade1, shade2, shade3, shade4, shade5 in *. cbn [In] in Hlev.
    split; [mod_lia|].
    destruct Hlev as [<-|[<-|[<-|[<-|[<-|[<-|[]]]]]]]; cbn; auto 10; lia.
Qed.

Lemma main_strokes_lines_and_greys_witness :
  exists r g' newx newy,
    main_passes 0 3 4 crossing_image initial_globals = Return r g' /\
    svgFile g' = svgFile initial_globals ++ newx ++ newy /\
    (forall l, In l newx ->
       attr0 l = "x"%string /\ across1 l mod 2 = 0 /\ In (gray l) [0; 42; 84; 126; 210]) /\
    (forall l, In l newy ->
       attr0 l = "y"%string /\ across1 l mod 4 = 0 /\ In (gray l) [42; 126]).
Proof.
  apply (main_strokes_lines_and_greys 0 3 4 crossing_image initial_globals).
  - split; [lia|]. split; [reflexivity|]. repeat constructor.
  - lia.
  - lia.
Defined.

(** ** Burn lines against strokes *)

Lemma paired_output_refl (g : Globals) : paired_output g g.
Proof. exists 0%nat, 0%nat. repeat split; lia. Qed.

Lemma paired_output_trans (g1 g2 g3 : Globals) :
  paired_output g1 g2 -> paired_output g2 g3 -> paired_output g1 g3.
Proof.
  intros (n1 & t1 & A1 & B1 & C1 & D1) (n2 & t2 & A2 & B2 & C2 & D2).
  exists (n1 + n2)%nat, (t1 + t2)%nat. repeat split; lia.
Qed.

Lemma svgPrint_paired (S_OR_F start stop rowNum : Z) (invert : bool)
    (axes : string * string) (axisDimension val : Z) (g : Globals) :
  fst axes = "x"%string \/ fst axes = "y"%string ->
  paired_output g (svgPrint S_OR_F start stop rowNum invert axes axisDimension val g).
Proof.
  intros Hax.
  destruct (svgPrint_gcodeFile S_OR_F start stop rowNum invert axes axisDimension val g Hax)
    as (travel & burn & Hg & Hm & H0 & H1).
  assert (Hb : is_travel burn = false) by (destruct burn; [discriminate Hm|reflexivity..]).
  unfold paired_output, count_marks, count_travels.
  rewrite Hg, svgPrint_svgFile_length, !filter_app, !length_app. cbn [filter].
  rewrite Hm, Hb. cbn [length].
  destruct (float_ne _ _ || float_ne _ _).
  - destruct (H1 eq_refl) as (t & -> & Ht).
    assert (Hmt : is_mark t = false) by (destruct t; [reflexivity|discriminate Ht..]).
    cbn [filter]. rewrite Ht, Hmt. cbn [length].
    exists 1%nat, 1%nat. repeat split; lia.
  - rewrite (H0 eq_refl). cbn [filter length].
    exists 1%nat, 0%nat. repeat split; lia.
Qed.

Section PairedPass.

Variable S_OR_F : Z.
Variable needLine : Z -> Z -> bool.
Variable axes : string * string.
Variable axisDimension : Z.

Hypothesis axes_xy : fst axes = "x"%string \/ fst axes = "y"%string.

Lemma pixel_step_paired (rowIndex : Z) (invert : bool) (row : list Z)
    (s : RowState) (ip : Z * Z) :
  paired_output (glob s)
    (glob (pixel_step S_OR_F needLine axes axisDimension rowIndex invert row s ip)).
Proof.
  destruct ip as [i p]. unfold pixel_step.
  destruct ((i >? 0) && negb (p =? nth (Z.to_nat (i - 1)) row 0));
    [destruct (needLine _ rowIndex)|]; cbn [glob];
    try apply paired_output_refl.
  apply svgPrint_paired, axes_xy.
Qed.

Lemma fold_paired (rowIndex : Z) (invert : bool) (row : list Z)
    (l : list (Z * Z)) (s : RowState) :
  paired_output (glob s)
    (glob (fold_left (pixel_step S_OR_F needLine axes axisDimension rowIndex invert row) l s)).
Proof.
  revert s. induction l as [|ip l IH]; intros s; cbn [fold_left];
    [apply paired_output_refl|].
  eapply paired_output_trans; [apply pixel_step_paired|apply IH].
Qed.

Lemma scan_row_paired (rowIndex : Z) (row : list Z) (invert : bool)
    (idx : option Z) (g : Globals) :
  paired_output g
    (globals_of (scan_row S_OR_F needLine axes axisDimension rowIndex row invert idx g)).
Proof.
  unfold scan_row, scan_samples.
  set (row' := if invert then rev row else row).
  pose proof (fold_paired rowIndex invert row' (enumerate row') (mkRowState false 0 idx g))
    as H.
  destruct (fold_left _ (enumerate row') _) as [dr fe ix gl]. cbn [glob index] in *.
  destruct ix as [i|]; [|exact H].
  destruct (getitem row' i) as [last|]; [|exact H].
  destruct (needLine last rowIndex); cbn [globals_of glob]; [|exact H].
  eapply paired_output_trans; [exact H|apply svgPrint_paired, axes_xy].
Qed.

Lemma rows_loop_paired (rows : list (Z * list Z)) (invert : bool)
    (idx : option Z) (g : Globals) :
  paired_output g
    (globals_of (rows_loop S_OR_F needLine axes axisDimension rows invert idx g)).
Proof.
  revert invert idx g. induction rows as [|[i row] rows IH]; intros invert idx g;
    cbn [rows_loop]; [apply paired_output_refl|].
  pose proof (scan_row_paired i row invert idx g) as H.
  destruct (scan_row S_OR_F needLine axes axisDimension i row invert idx g)
    as [[i' x'] g1|e g1]; cbn [globals_of] in *; [|exact H].
  eapply paired_output_trans; [exact H|apply IH].
Qed.

End PairedPass.

(** X9. Whatever the image, and whether [main]'s passes end or stop on an
    exception, they write exactly one burn line per stroke recorded in the
    SVG file, and no more travel lines than burn lines. *)
Theorem main_one_burn_per_stroke
    (S_OR_F width height : Z) (image : list (list Z)) (g : Globals) :
  let g' := globals_of (main_passes S_OR_F width height image g) in
  exists n t : nat,
    length (svgFile g') = (length (svgFile g) + n)%nat /\
    count_marks g' = (count_marks g + n)%nat /\
    count_travels g' = (count_travels g + t)%nat /\
    (t <= n)%nat.
Proof.
  cbv zeta. change (paired_output g (globals_of (main_passes S_OR_F width height image g))).
  unfold main_passes, generateVectors.
  pose proof (rows_loop_paired S_OR_F needLineX ("x"%string, "y"%string) width
                (or_introl eq_refl) (enumerate (map (map reduce_shade) image)) false None g)
    as H1.
  destruct (rows_loop S_OR_F needLineX _ width _ false None g) as [r1 g1|e g1];
    cbn [globals_of] in *; [|exact H1].
  eapply paired_output_trans; [exact H1|].
  apply rows_loop_paired. right. reflexivity.
Qed.

(** ** The modulation value of a burn line *)

Lemma last_gcode_snoc (g : Globals) (pre : list GLine) (l : GLine) :
  gcodeFile g = pre ++ [l] -> last_gcode g = Some l.
Proof. intros H. unfold last_gcode. rewrite H, rev_app_distr. reflexivity. Qed.

(** The last line a call of [svgPrint] writes is its burn line, carrying the
    value computed from the quantised shade. *)
Lemma svgPrint_last_burn (S_OR_F start stop rowNum : Z) (invert : bool)
    (axes : string * string) (axisDimension val : Z) (g : Globals) :
  fst axes = "x"%string \/ fst axes = "y"%string ->
  exists x y,
    last_gcode (svgPrint S_OR_F start stop rowNum invert axes axisDimension val g)
    = Some (BURN_TO S_OR_F x y
              (if S_OR_F =? 1
               then (py_float (quantize val / (256 / 6)) * SPEED_STEP
                     + py_float FEED_SPEED)%float
               else (py_float ((255 - quantize val) / (256 / 6)) * POWER_STEP)%float)).
Proof.
  intros [E|E]; unfold svgPrint; fold (quantize val); do 2 eexists;
    (eapply last_gcode_snoc; cbn [gcodeFile]; rewrite E;
     cbn [String.eqb Ascii.eqb Bool.eqb];
     rewrite ?app_nil_r, ?app_assoc; cbn [app]; rewrite ?app_nil_r; reflexivity).
Qed.

Lemma quantize_div (val : Z) : quantize val = val / 42 * 42.
Proof.
  unfold quantize. change (256 / 6) with 42.
  destruct (Z.eqb_spec val 0) as [->|_]; reflexivity.
Qed.

(** The seven power levels and the seven speed levels, in order. *)
Lemma power_levels_ordered (n m : Z) :
  0 <= n <= m -> m <= 6 ->
  PrimFloat.leb (py_float POWER_MIN) (py_float n * POWER_STEP) = true /\
  PrimFloat.leb (py_float n * POWER_STEP) (py_float m * POWER_STEP) = true /\
  PrimFloat.leb (py_float m * POWER_STEP) (py_float POWER_MAX) = true.
Proof.
  intros Hn Hm.
  assert (Hn' : n = 0 \/ n = 1 \/ n = 2 \/ n = 3 \/ n = 4 \/ n = 5 \/ n = 6) by lia.
  assert (Hm' : m = 0 \/ m = 1 \/ m = 2 \/ m = 3 \/ m = 4 \/ m = 5 \/ m = 6) by lia.
  destruct Hn' as [->|[->|[->|[->|[->|[->| ->]]]]]];
    destruct Hm' as [->|[->|[->|[->|[->|[->| ->]]]]]];
    try lia; vm_compute; repeat split.
Qed.

Lemma speed_levels_ordered (n m : Z) :
  0 <= n <= m -> m <= 6 ->
  PrimFloat.leb (py_float FEED_SPEED)
    (py_float n * SPEED_STEP + py_float FEED_SPEED) = true /\
  PrimFloat.leb (py_float n * SPEED_STEP + py_float FEED_SPEED)
    (py_float m * SPEED_STEP + py_float FEED_SPEED) = true /\
  PrimFloat.leb (py_float m * SPEED_STEP + py_float FEED_SPEED)
    (py_float FEED_SPEED_MAX) = true.
Proof.
  intros Hn Hm.
  assert (Hn' : n = 0 \/ n = 1 \/ n = 2 \/ n = 3 \/ n = 4 \/ n = 5 \/ n = 6) by lia.
  assert (Hm' : m = 0 \/ m = 1 \/ m = 2 \/ m = 3 \/ m = 4 \/ m = 5 \/ m = 6) by lia.
  destruct Hn' as [->|[->|[->|[->|[->|[->| ->]]]]]];
    destruct Hm' as [->|[->|[->|[->|[->|[->| ->]]]]]];
    try lia; vm_compute; repeat split.
Qed.

(** X10. In power mode ([S_OR_F] other than 1) the last line written for a
    run of shade 0..255 is a burn line whose S value lies between
    [POWER_MIN] and [POWER_MAX]; of two shades the darker one never gets the
    lower power. *)
Theorem burn_power_bounded_and_antitone
    (S_OR_F start stop rowNum : Z) (invert : bool) (axes : string * string)
    (axisDimension : Z) (g : Globals)
    (start' stop' rowNum' : Z) (invert' : bool) (g' : Globals) (dark light : Z) :
  S_OR_F <> 1 ->
  fst axes = "x"%string \/ fst axes = "y"%string ->
  0 <= dark -> dark <= light -> light <= 255 ->
  exists p x y p' x' y',
    last_gcode (svgPrint S_OR_F start stop rowNum invert axes axisDimension dark g)
      = Some (BURN_GCODE p x y) /\
    last_gcode (svgPrint S_OR_F start' stop' rowNum' invert' axes axisDimension light g')
      = Some (BURN_GCODE p' x' y') /\
    PrimFloat.leb (py_float POWER_MIN) p' = true /\
    PrimFloat.leb p' p = true /\
    PrimFloat.leb p (py_float POWER_MAX) = true.
Proof.
  intros HS Hax Hd Hdl Hl.
  destruct (svgPrint_last_burn S_OR_F start stop rowNum invert axes axisDimension dark g Hax)
    as (x & y & H1).
  destruct (svgPrint_last_burn S_OR_F start' stop' rowNum' invert' axes axisDimension light
              g' Hax) as (x' & y' & H2).
  unfold BURN_TO in H1, H2.
  destruct (Z.eqb_spec S_OR_F 1) as [E|_]; [contradiction|].
  do 6 eexists. split; [exact H1|]. split; [exact H2|].
  change (256 / 6) with 42. rewrite !quantize_div.
  assert (Hq : light / 42 * 42 <= 255 /\ dark / 42 * 42 <= light / 42 * 42 /\
               0 <= dark / 42 * 42).
  { pose proof (Z.div_le_mono dark light 42 eq_refl Hdl).
    pose proof (Z.mul_div_le light 42 eq_refl).
    pose proof (Z.div_pos dark 42 Hd eq_refl). lia. }
  apply power_levels_ordered.
  - split; [apply Z.div_pos; lia|]. apply Z.div_le_mono; lia.
  - apply Z.lt_succ_r. apply Z.div_lt_upper_bound; lia.
Qed.

Lemma burn_power_bounded_and_antitone_witness :
  exists p x y p' x' y',
    last_gcode (svgPrint 0 0 3 0 false ("x"%string, "y"%string) 8 50 initial_globals)
      = Some (BURN_GCODE p x y) /\
    last_gcode (svgPrint 0 3 5 0 false ("x"%string, "y"%string) 8 212 initial_globals)
      = Some (BURN_GCODE p' x' y') /\
    PrimFloat.leb (py_float POWER_MIN) p' = true /\
    PrimFloat.leb p' p = true /\
    PrimFloat.leb p (py_float POWER_MAX) = true.
Proof.
  apply (burn_power_bounded_and_antitone 0 0 3 0 false ("x"%string, "y"%string) 8
           initial_globals 3 5 0 false initial_globals 50 212).
  - discriminate.
  - left. reflexivity.
  - lia.
  - lia.
  - lia.
Defined.

(** X11. In speed mode ([S_OR_F] = 1) the last line written for a run of
    shade 0..255 is a burn line whose F value lies between [FEED_SPEED] and
    [FEED_SPEED_MAX]; of two shades the darker one never gets the higher
    feed speed. *)
Theorem burn_speed_bounded_and_monotone
    (start stop rowNum : Z) (invert : bool) (axes : string * string)
    (axisDimension : Z) (g : Globals)
    (start' stop' rowNum' : Z) (invert' : bool) (g' : Globals) (dark light : Z) :
  fst axes = "x"%string \/ fst axes = "y"%string ->
  0 <= dark -> dark <= light -> light <= 255 ->
  exists f x y f' x' y',
    last_gcode (svgPrint 1 start stop rowNum invert axes axisDimension dark g)
      = Some (BURN_GCODE_F x y f) /\
    last_gcode (svgPrint 1 start' stop' rowNum' invert' axes axisDimension light g')
      = Some (BURN_GCODE_F x' y' f') /\
    PrimFloat.leb (py_float FEED_SPEED) f = true /\
    PrimFloat.leb f f' = true /\
    PrimFloat.leb f' (py_float FEED_SPEED_MAX) = true.
Proof.
  intros Hax Hd Hdl Hl.
  destruct (svgPrint_last_burn 1 start stop rowNum invert axes axisDimension dark g Hax)
    as (x & y & H1).
  destruct (svgPrint_last_burn 1 start' stop' rowNum' invert' axes axisDimension light
              g' Hax) as (x' & y' & H2).
  unfold BURN_TO in H1, H2. cbn [Z.eqb Pos.eqb] in H1, H2.
  do 6 eexists. split; [exact H1|]. split; [exact H2|].
  change (256 / 6) with 42. rewrite !quantize_div, !Z.div_mul by lia.
  apply speed_levels_ordered.
  - split; [apply Z.div_pos; lia|]. apply Z.div_le_mono; lia.
  - apply Z.lt_succ_r. apply Z.div_lt_upper_bound; lia.
Qed.

Lemma burn_speed_bounded_and_monotone_witness :
  exists f x y f' x' y',
    last_gcode (svgPrint 1 0 3 0 false ("x"%string, "y"%string) 8 50 initial_globals)
      = Some (BURN_GCODE_F x y f) /\
    last_gcode (svgPrint 1 3 5 0 false ("x"%string, "y"%string) 8 212 initial_globals)
      = Some (BURN_GCODE_F x' y' f') /\
    PrimFloat.leb (py_float FEED_SPEED) f = true /\
    PrimFloat.leb f f' = true /\
    PrimFloat.leb f' (py_float FEED_SPEED_MAX) = true.
Proof.
  apply (burn_speed_bounded_and_monotone 0 3 0 false ("x"%string, "y"%string) 8
           initial_globals 3 5 0 false initial_globals 50 212).
  - left. reflexivity.
  - lia.
  - lia.
  - lia.
Defined.

(** ** Files that only grow *)

Lemma extends_refl (g : Globals) : extends g g.
Proof. exists [], []. rewrite !app_nil_r. split; reflexivity. Qed.

Lemma extends_trans (g1 g2 g3 : Globals) :
  extends g1 g2 -> extends g2 g3 -> extends g1 g3.
Proof.
  intros (l1 & c1 & A1 & B1) (l2 & c2 & A2 & B2).
  exists (l1 ++ l2), (c1 ++ c2). rewrite A2, A1, B2, B1, !app_assoc. split; reflexivity.
Qed.

Lemma svgPrint_extends (S_OR_F start stop rowNum : Z) (invert : bool)
    (axes : string * string) (axisDimension val : Z) (g : Globals) :
  extends g (svgPrint S_OR_F start stop rowNum invert axes axisDimension val g).
Proof. unfold svgPrint. do 2 eexists. cbn [svgFile gcodeFile]. split; reflexivity. Qed.

Lemma by_line_app (n : Z) (l1 l2 : list SvgLine) :
  Forall (fun l => across1 l = n) l1 ->
  Forall (fun l => n <= across1 l) l2 ->
  StronglySorted by_line l2 ->
  StronglySorted by_line (l1 ++ l2).
Proof.
  intros H1 H2 H3. induction H1 as [|l ls Hl Hls IH]; cbn [app]; [exact H3|].
  constructor; [exact IH|].
  apply Forall_app. split.
  - eapply Forall_impl; [|exact Hls]. unfold by_line. cbn. intros l2' E. lia.
  - eapply Forall_impl; [|exact H2]. unfold by_line. cbn. intros l2' E. lia.
Qed.

Section ExtendingPass.

Variable S_OR_F : Z.
Variable needLine : Z -> Z -> bool.
Variable axes : string * string.
Variable axisDimension : Z.

Lemma pixel_step_extends (rowIndex : Z) (invert : bool) (row : list Z)
    (s : RowState) (ip : Z * Z) :
  extends (glob s)
    (glob (pixel_step S_OR_F needLine axes axisDimension rowIndex invert row s ip)).
Proof.
  destruct ip as [i p]. unfold pixel_step.
  destruct ((i >? 0) && negb (p =? nth (Z.to_nat (i - 1)) row 0));
    [destruct (needLine _ rowIndex)|]; cbn [glob];
    try apply extends_refl.
  apply svgPrint_extends.
Qed.

Lemma fold_extends (rowIndex : Z) (invert : bool) (row : list Z)
    (l : list (Z * Z)) (s : RowState) :
  extends (glob s)
    (glob (fold_left (pixel_step S_OR_F needLine axes axisDimension rowIndex invert row) l s)).
Proof.
  revert s. induction l as [|ip l IH]; intros s; cbn [fold_left]; [apply extends_refl|].
  eapply extends_trans; [apply pixel_step_extends|apply IH].
Qed.

Lemma scan_row_extends (rowIndex : Z) (row : list Z) (invert : bool)
    (idx : option Z) (g : Globals) :
  extends g
    (globals_of (scan_row S_OR_F needLine axes axisDimension rowIndex row invert idx g)).
Proof.
  unfold scan_row, scan_samples.
  set (row' := if invert then rev row else row).
  pose proof (fold_extends rowIndex invert row' (enumerate row') (mkRowState false 0 idx g))
    as H.
  destruct (fold_left _ (enumerate row') _) as [dr fe ix gl]. cbn [glob index] in *.
  destruct ix as [i|]; [|exact H].
  destruct (getitem row' i) as [last|]; [|exact H].
  destruct (needLine last rowIndex); cbn [globals_of glob]; [|exact H].
  eapply extends_trans; [exact H|apply svgPrint_extends].
Qed.

Lemma rows_loop_extends (rows : list (Z * list Z)) (invert : bool)
    (idx : option Z) (g : Globals) :
  extends g (globals_of (rows_loop S_OR_F needLine axes axisDimension rows invert idx g)).
Proof.
  revert invert idx g. induction rows as [|[i row] rows IH]; intros invert idx g;
    cbn [rows_loop]; [apply extends_refl|].
  pose proof (scan_row_extends i row invert idx g) as H.
  destruct (scan_row S_OR_F needLine axes axisDimension i row invert idx g)
    as [[i' x'] g1|e g1]; cbn [globals_of] in *; [|exact H].
  eapply extends_trans; [exact H|apply IH].
Qed.

(** Rows numbered from [n] on: the strokes come row after row. *)
Lemma rows_loop_by_line (img : list (list Z)) :
  Forall (fun row => row <> []) img ->
  forall n invert idx g,
  exists r g' new,
    rows_loop S_OR_F needLine axes axisDimension (enumerate_from n img) invert idx g
      = Return r g' /\
    svgFile g' = svgFile g ++ new /\
    Forall (fun l => n <= across1 l) new /\
    StronglySorted by_line new.
Proof.
  induction 1 as [|row img Hrow _ IH]; intros n invert idx g;
    cbn [enumerate_from rows_loop].
  - exists (invert, idx), g, []. rewrite app_nil_r. repeat split; constructor.
  - destruct (scan_row_runs S_OR_F needLine axes axisDimension n row invert idx g Hrow)
      as (runs & i' & g1 & H1 & H2 & _ & _).
    rewrite H1.
    destruct (IH (n + 1) i' (Some (Z.of_nat (length row) - 1)) g1)
      as (r & g' & new & H5 & H6 & H7 & H8).
    exists r, g', (map (run_record axes axisDimension n invert) runs ++ new).
    split; [exact H5|]. split; [rewrite H6, H2, app_assoc; reflexivity|].
    assert (Hn : Forall (fun l => across1 l = n)
                   (map (run_record axes axisDimension n invert) runs)).
    { apply Forall_map. apply Forall_forall. intros [[s e] v] _. reflexivity. }
    split.
    + apply Forall_app. split.
      * eapply Forall_impl; [|exact Hn]. cbn. intros l ->. lia.
      * eapply Forall_impl; [|exact H7]. cbn. intros l Hl. lia.
    + apply (by_line_app n); [exact Hn| |exact H8].
      eapply Forall_impl; [|exact H7]. cbn. intros l Hl. lia.
Qed.

End ExtendingPass.

(** X12. The output files only grow: whatever the image, and whether the
    passes of [main] end or stop on an exception, what the SVG file and the
    G-code file held before is still there, unchanged and in the same order,
    before what was written since. *)
Theorem main_output_append_only
    (S_OR_F width height : Z) (image : list (list Z)) (g : Globals) :
  let g' := globals_of (main_passes S_OR_F width height image g) in
  exists (lines : list SvgLine) (code : list GLine),
    svgFile g' = svgFile g ++ lines /\ gcodeFile g' = gcodeFile g ++ code.
Proof.
  cbv zeta. change (extends g (globals_of (main_passes S_OR_F width height image g))).
  unfold main_passes, generateVectors.
  pose proof (rows_loop_extends S_OR_F needLineX ("x"%string, "y"%string) width
                (enumerate (map (map reduce_shade) image)) false None g) as H1.
  destruct (rows_loop S_OR_F needLineX _ width _ false None g) as [r1 g1|e g1];
    cbn [globals_of] in *; [|exact H1].
  eapply extends_trans; [exact H1|]. apply rows_loop_extends.
Qed.

(** X13. In a pass over an image whose rows are all non-empty the strokes
    are recorded row after row: the line number never decreases from one
    recorded stroke to any later one. *)
Theorem pass_strokes_row_after_row
    (S_OR_F : Z) (needLine : Z -> Z -> bool) (axes : string * string)
    (axisDimension : Z) (img : list (list Z)) (g : Globals) :
  Forall (fun row => row <> []) img ->
  exists r g' new,
    generateVectors S_OR_F needLine axes axisDimension img g = Return r g' /\
    svgFile g' = svgFile g ++ new /\
    StronglySorted by_line new.
Proof.
  intros Hne.
  destruct (rows_loop_by_line S_OR_F needLine axes axisDimension img Hne 0 false None g)
    as (r & g' & new & H1 & H2 & _ & H3).
  exists r, g', new. split; [exact H1|]. split; [exact H2|exact H3].
Qed.

Lemma pass_strokes_row_after_row_witness :
  exists r g' new,
    generateVectors 0 needLineX ("x"%string, "y"%string) 2
      [[0; 255]; [50; 50]; [255; 0]] initial_globals = Return r g' /\
    svgFile g' = svgFile initial_globals ++ new /\
    StronglySorted by_line new.
Proof.
  apply (pass_strokes_row_after_row 0 needLineX ("x"%string, "y"%string) 2
           [[0; 255]; [50; 50]; [255; 0]] initial_globals).
  repeat constructor; discriminate.
Defined.

(** ** Two strokes in a row of calls *)

(** X14. Two calls of [svgPrint] one after the other in the same pass: the
    second writes its burn line alone when its start has the coordinates
    (compared as floats) at which the first stroke ended, and otherwise
    first writes one travel line to its own start, X before Y. *)
Theorem travel_between_consecutive_strokes
    (S_OR_F : Z) (axes : string * string) (axisDimension : Z) (g : Globals)
    (start1 stop1 row1 : Z) (invert1 : bool) (val1 : Z)
    (start2 stop2 row2 : Z) (invert2 : bool) (val2 : Z) :
  fst axes = "x"%string \/ fst axes = "y"%string ->
  let g1 := svgPrint S_OR_F start1 stop1 row1 invert1 axes axisDimension val1 g in
  let g2 := svgPrint S_OR_F start2 stop2 row2 invert2 axes axisDimension val2 g1 in
  let a := scaled (reported invert2 axisDimension start2) in
  let b := scaled row2 in
  let moved :=
    float_ne a (scaled (reported invert1 axisDimension stop1)) || float_ne b (scaled row1) in
  exists burn,
    is_mark burn = true /\
    gcodeFile g2 =
      gcodeFile g1
      ++ (if moved
          then [if String.eqb (fst axes) "x" then MOVE_TO a b else MOVE_TO b a]
          else [])
      ++ [burn].
Proof.
  intros Hax g1 g2 a b moved.
  subst g2. unfold svgPrint at 1. cbn [gcodeFile].
  fold (reported invert2 axisDimension start2) (reported invert2 axisDimension stop2).
  fold (scaled (reported invert2 axisDimension start2)) (scaled row2)
       (scaled (reported invert2 axisDimension stop2)).
  fold a b.
  destruct (svgPrint_cursor S_OR_F start1 stop1 row1 invert1 axes axisDimension val1 g)
    as [Hc Hd].
  fold g1 in Hc, Hd. rewrite Hc, Hd. fold moved.
  destruct Hax as [E|E]; rewrite E; cbn [String.eqb Ascii.eqb Bool.eqb];
    rewrite ?app_nil_r; cbn [app]; eexists; (split; [|reflexivity]);
    apply BURN_TO_target.
Qed.

Lemma travel_between_consecutive_strokes_witness :
  let g1 := svgPrint 0 0 2 0 false ("x"%string, "y"%string) 8 0 initial_globals in
  let g2 := svgPrint 0 2 5 0 false ("x"%string, "y"%string) 8 50 g1 in
  let a := scaled (reported false 8 2) in
  let b := scaled 0 in
  let moved := float_ne a (scaled (reported false 8 2)) || float_ne b (scaled 0) in
  exists burn,
    is_mark burn = true /\
    gcodeFile g2 =
      gcodeFile g1
      ++ (if moved
          then [if String.eqb "x" "x" then MOVE_TO a b else MOVE_TO b a]
          else [])
      ++ [burn].
Proof.
  apply (travel_between_consecutive_strokes 0 ("x"%string, "y"%string) 8 initial_globals
           0 2 0 false 0 2 5 0 false 50).
  left. reflexivity.
Defined.

(** X15. Quantising is idempotent in the records: the grey recorded for a
    shade, handed to [svgPrint] as a shade, is recorded as the same grey. *)
Theorem svgPrint_gray_stable
    (S_OR_F start stop rowNum : Z) (invert : bool) (axes : string * string)
    (axisDimension val : Z) (g : Globals)
    (S_OR_F' start' stop' rowNum' : Z) (invert' : bool) (axes' : string * string)
    (axisDimension' : Z) (g' : Globals) :
  exists l l',
    svgFile (svgPrint S_OR_F start stop rowNum invert axes axisDimension val g)
      = svgFile g ++ [l] /\
    svgFile (svgPrint S_OR_F' start' stop' rowNum' invert' axes' axisDimension' (gray l) g')
      = svgFile g' ++ [l'] /\
    gray l' = gray l.
Proof.
  do 2 eexists. split; [apply svgPrint_svgFile|]. split; [apply svgPrint_svgFile|].
  cbn [gray]. apply quantize_idempotent.
Qed.

(** ** The remembered end *)

Section CursorPass.

Variable S_OR_F : Z.
Variable needLine : Z -> Z -> bool.
Variable axes : string * string.
Variable axisDimension : Z.

Lemma svgPrint_cursor_on_last_stroke (start stop rowNum : Z) (invert : bool)
    (val : Z) (g : Globals) :
  cursor_on_last_stroke (svgPrint S_OR_F start stop rowNum invert axes axisDimension val g).
Proof.
  unfold cursor_on_last_stroke, svgPrint. do 2 eexists. cbn [svgFile last_a last_b last_c last_d].
  split; [reflexivity|]. repeat split.
Qed.

Lemma fold_cursor (rowIndex : Z) (invert : bool) (row : list Z)
    (l : list (Z * Z)) (s : RowState) (g0 : Globals) :
  glob s = g0 \/ cursor_on_last_stroke (glob s) ->
  let s' := fold_left (pixel_step S_OR_F needLine axes axisDimension rowIndex invert row) l s in
  glob s' = g0 \/ cursor_on_last_stroke (glob s').
Proof.
  revert s. induction l as [|[i p] l IH]; intros s H; cbn [fold_left]; [exact H|].
  apply IH. unfold pixel_step.
  destruct ((i >? 0) && negb (p =? nth (Z.to_nat (i - 1)) row 0));
    [destruct (needLine _ rowIndex)|]; cbn [glob]; try exact H.
  right. apply svgPrint_cursor_on_last_stroke.
Qed.

Lemma scan_row_cursor (rowIndex : Z) (row : list Z) (invert : bool)
    (idx : option Z) (g g0 : Globals) :
  g = g0 \/ cursor_on_last_stroke g ->
  let g' := globals_of (scan_row S_OR_F needLine axes axisDimension rowIndex row invert idx g) in
  g' = g0 \/ cursor_on_last_stroke g'.
Proof.
  intros H. unfold scan_row, scan_samples.
  set (row' := if invert then rev row else row).
  pose proof (fold_cursor rowIndex invert row' (enumerate row') (mkRowState false 0 idx g)
                g0 H) as Hf.
  cbv zeta in Hf.
  destruct (fold_left _ (enumerate row') _) as [dr fe ix gl]. cbn [glob index] in *.
  destruct ix as [i|]; [|exact Hf].
  destruct (getitem row' i) as [last|]; [|exact Hf].
  destruct (needLine last rowIndex); cbn [globals_of glob]; [|exact Hf].
  right. apply svgPrint_cursor_on_last_stroke.
Qed.

Lemma rows_loop_cursor (rows : list (Z * list Z)) (invert : bool)
    (idx : option Z) (g g0 : Globals) :
  g = g0 \/ cursor_on_last_stroke g ->
  let g' := globals_of (rows_loop S_OR_F needLine axes axisDimension rows invert idx g) in
  g' = g0 \/ cursor_on_last_stroke g'.
Proof.
  revert invert idx g. induction rows as [|[i row] rows IH]; intros invert idx g H;
    cbn [rows_loop]; [exact H|].
  pose proof (scan_row_cursor i row invert idx g g0 H) as H1. cbv zeta in H1.
  destruct (scan_row S_OR_F needLine axes axisDimension i row invert idx g)
    as [[i' x'] g1|e g1]; cbn [globals_of] in *; [|exact H1].
  apply IH. exact H1.
Qed.

End CursorPass.

(** X16. After the passes of [main], ended or stopped by an exception,
    either nothing at all has changed, or the remembered coordinates
    [last_a] .. [last_d] are the scaled ends of the stroke recorded last in
    the SVG file. *)
Theorem main_cursor_on_last_stroke
    (S_OR_F width height : Z) (image : list (list Z)) (g : Globals) :
  let g' := globals_of (main_passes S_OR_F width height image g) in
  g' = g \/
  exists earlier l,
    svgFile g' = earlier ++ [l] /\
    last_a g' = scaled (along1 l) /\ last_b g' = scaled (across1 l) /\
    last_c g' = scaled (along2 l) /\ last_d g' = scaled (across2 l).
Proof.
  cbv zeta.
  change (globals_of (main_passes S_OR_F width height image g) = g \/
          cursor_on_last_stroke (globals_of (main_passes S_OR_F width height image g))).
  unfold main_passes, generateVectors.
  pose proof (rows_loop_cursor S_OR_F needLineX ("x"%string, "y"%string) width
                (enumerate (map (map reduce_shade) image)) false None g g
                (or_introl eq_refl)) as H1.
  cbv zeta in H1.
  destruct (rows_loop S_OR_F needLineX _ width _ false None g) as [r1 g1|e g1];
    cbn [globals_of] in *; [|exact H1].
  apply rows_loop_cursor. exact H1.
Qed.
